(** * MetScraper: a shallow embedding of [met_scraper.py]

    The resumable ingestion loop of the repository ([MetScraper] in
    [met_scraper.py]) is embedded as executable Rocq definitions:

    - JSON data as the program sees it after [json.load]: Python values
      ([value]) and dictionaries ([gmap string value]);
    - exceptions as an inductive type with the class tests the [except]
      clauses perform;
    - the stateful methods in a small state / exception / event monad [M];
      the state holds the object's mutable fields ([self.metadata],
      [self.processed_ids]) and the content of the output file;
    - everything the program does not decide (HTTP responses, filesystem
      failures, the content of the input file) as an environment [Env] of
      outcomes, indexed by the loop counter of [process_artworks].

    Scope of the embedding: the input ID sequence is a list of integers (the
    annotated type [List[int]]), a parsable output file holds a list of
    dictionaries (the only shape [_save_metadata] writes), an API response
    body is a JSON object, [rate_limit_delay] is non-negative (so
    [time.sleep] returns), and logging is not modelled. *)

From Stdlib Require Import ZArith Ascii String List Bool Lia.
From stdpp Require Import base decidable option list gmap sets strings pretty.

Open Scope string_scope.
Open Scope list_scope.
Open Scope Z_scope.

Set Warnings "-register-all,-clear-no-such-hyp".

(** ** Python values and dictionaries *)

Inductive value : Type :=
| VNone
| VBool (b : bool)
| VInt (z : Z)
| VStr (s : string)
| VList (l : list value)
| VDict (d : list (string * value)).

(** Python truthiness, as used by [if not x]. *)
Definition truthy (v : value) : bool :=
  match v with
  | VNone => false
  | VBool b => b
  | VInt z => negb (z =? 0)
  | VStr s => negb (String.eqb s "")
  | VList l => match l with [] => false | _ => true end
  | VDict d => match d with [] => false | _ => true end
  end.

(** [d.get(k, dflt)] on a dictionary with string keys. *)
Definition dict_get (d : gmap string value) (k : string) (dflt : value) : value :=
  default dflt (d !! k).

(** Truthiness of a dictionary: non-empty. *)
Definition dict_truthy (d : gmap string value) : bool :=
  negb (bool_decide (dom d = (∅ : gset string))).

(** Elements of a Python [set]: hashable values up to Python equality
    ([True == 1] and [False == 0] hash alike). Lists and dictionaries are
    unhashable. *)
Inductive hkey : Type :=
| KNone
| KInt (z : Z)
| KStr (s : string).

#[global] Instance hkey_eq_dec : EqDecision hkey.
Proof. solve_decision. Defined.

#[global] Instance hkey_countable : Countable hkey :=
  inj_countable'
    (λ k, match k with
          | KNone => inl ()
          | KInt z => inr (inl z)
          | KStr s => inr (inr s)
          end)
    (λ x, match x with
          | inl _ => KNone
          | inr (inl z) => KInt z
          | inr (inr s) => KStr s
          end)
    (λ k, match k with KNone | KInt _ | KStr _ => eq_refl end).

Definition hash_key (v : value) : option hkey :=
  match v with
  | VNone => Some KNone
  | VBool b => Some (KInt (Z.b2z b))
  | VInt z => Some (KInt z)
  | VStr s => Some (KStr s)
  | VList _ | VDict _ => None
  end.

(** ** Strings: the [str] methods the program calls *)

Module Str.

(** [sub in s] *)
Fixpoint contains (sub s : string) : bool :=
  String.prefix sub s ||
  match s with
  | EmptyString => false
  | String _ s' => contains sub s'
  end.

(** [s.endswith(suf)] *)
Definition endswith (s suf : string) : bool :=
  (String.length suf <=? String.length s)%nat &&
  String.eqb
    (String.substring (String.length s - String.length suf)
       (String.length suf) s)
    suf.

(** [s.replace(old, new)] for a non-empty [old]: occurrences are found
    left to right and do not overlap. [skip] counts the characters of a
    matched occurrence that are still to be passed over. *)
Fixpoint replace_from (old new s : string) (skip : nat) : string :=
  match s with
  | EmptyString => EmptyString
  | String c s' =>
    match skip with
    | S k => replace_from old new s' k
    | O =>
      if String.prefix old s
      then new +:+ replace_from old new s' (String.length old - 1)
      else String c (replace_from old new s' 0)
    end
  end.

Definition replace (s old new : string) : string :=
  replace_from old new s 0.

End Str.

(** ** Exceptions *)

Inductive exn : Type :=
(* OSError and subclasses *)
| FileNotFoundError
| PermissionError
| OSError
(* ValueError and subclasses *)
| JSONDecodeError
| UnicodeDecodeError
| ValueError
(* other built-in exceptions *)
| ZeroDivisionError
| KeyError
| TypeError
| AttributeError
| KeyboardInterrupt
(* requests.exceptions.RequestException and subclasses *)
| RequestException
| ConnectionError
| Timeout
| HTTPError
| ChunkedEncodingError
| InvalidJSONError.

#[global] Instance exn_eq_dec : EqDecision exn.
Proof. solve_decision. Defined.

(** [isinstance(e, requests.exceptions.RequestException)] *)
Definition is_RequestException (e : exn) : bool :=
  match e with
  | RequestException | ConnectionError | Timeout | HTTPError
  | ChunkedEncodingError | InvalidJSONError => true
  | _ => false
  end.

(** [isinstance(e, FileNotFoundError)], [isinstance(e, json.JSONDecodeError)] *)
Definition is_FileNotFoundError (e : exn) : bool :=
  match e with FileNotFoundError => true | _ => false end.

Definition is_JSONDecodeError (e : exn) : bool :=
  match e with JSONDecodeError => true | _ => false end.

(** [isinstance(e, OSError)] *)
Definition is_OSError (e : exn) : bool :=
  match e with
  | FileNotFoundError | PermissionError | OSError => true
  | _ => false
  end.

(** [isinstance(e, Exception)]: everything but [KeyboardInterrupt]. *)
Definition is_Exception (e : exn) : bool :=
  match e with KeyboardInterrupt => false | _ => true end.

Inductive result (A : Type) : Type :=
| Ok (a : A)
| Raise (e : exn).
Arguments Ok {A} a.
Arguments Raise {A} e.

(** ** Observable events *)

Inductive event : Type :=
| EvFetch (object_id : Z)                    (* requests.get on base_url/object_id *)
| EvDownload (image_url : string) (object_id : Z)  (* requests.get on the image URL *)
| EvOpenAsset (filename : string)            (* the asset file is opened for writing *)
| EvAppend (object_id : Z) (entry : gmap string value)  (* self.metadata.append *)
| EvAddProcessed (object_id : Z)             (* self.processed_ids.add *)
| EvSave (snapshot : list (gmap string value))     (* output file opened for writing *)
| EvSleep.                                   (* time.sleep(self.rate_limit_delay) *)

(** ** The world outside the program *)

(** The output file ([self.output_file]) as [open] and [json.load] see it. *)
Inductive file_state : Type :=
| Absent                                  (* no such file *)
| Unparsable                              (* present, text that is not valid JSON *)
| Undecodable                             (* present, bytes that are not valid UTF-8 *)
| Unreadable (e : exn)                    (* open or read raises [e] *)
| Content (c : list (gmap string value)). (* a JSON array of objects *)

(** The document in the input file after [json.load]. *)
Inductive input_doc : Type :=
| DocArray (ids : list Z)               (* a JSON array *)
| DocObject (objectIDs : option (list Z)) (* a JSON object, with its 'objectIDs' entry if any *)
| DocOther.                             (* null, a boolean, a number or a string *)

(** Outcome of opening and dumping to the output file. *)
Inductive save_outcome : Type :=
| SaveOk
| SaveOpenFails (e : exn)   (* [open(.., 'w')] raises: the file is not touched *)
| SaveDumpFails (e : exn).  (* the write raises after the file was truncated *)

Record Env : Type := {
  (* [images_dir.mkdir(exist_ok=True)] in [__init__] *)
  mkdir_images : option exn;
  (* [open(self.input_file)] and [json.load] *)
  read_input : result input_doc;
  (* iteration [idx]: [requests.get(url, timeout=15)], [raise_for_status()],
     [response.json()] *)
  get_object : nat → Z → result (gmap string value);
  (* iteration [idx]: [requests.get(image_url, timeout=30, stream=True)] and
     [raise_for_status()]; on success the 'content-type' header, if any *)
  get_image : nat → string → result (option string);
  (* iteration [idx]: [open(filepath, 'wb')] *)
  open_asset : nat → string → option exn;
  (* iteration [idx]: the loop over [response.iter_content] writing the
     chunks; the first exception raised by the stream or by [f.write] *)
  stream_asset : nat → option exn;
  (* [_save_metadata] called in iteration [idx]; 0 is the final save *)
  write_output : nat → save_outcome
}.

(** ** State and monad *)

Record State : Type := {
  metadata : list (gmap string value);  (* self.metadata *)
  processed_ids : gset hkey;            (* self.processed_ids *)
  output_file : file_state              (* the file named self.output_file *)
}.

Record Outcome (A : Type) : Type := {
  res : result A;       (* value returned or exception raised *)
  final : State;        (* state when the computation stopped *)
  events : list event   (* events emitted, oldest first *)
}.
Arguments res {A} _.
Arguments final {A} _.
Arguments events {A} _.

Definition M (A : Type) : Type := State → Outcome A.

Definition ret {A} (a : A) : M A :=
  λ st, {| res := Ok a; final := st; events := [] |}.

Definition raise {A} (e : exn) : M A :=
  λ st, {| res := Raise e; final := st; events := [] |}.

Definition bind {A B} (m : M A) (k : A → M B) : M B :=
  λ st,
    let o := m st in
    match res o with
    | Ok a =>
      let o' := k a (final o) in
      {| res := res o'; final := final o'; events := events o ++ events o' |}
    | Raise e => {| res := Raise e; final := final o; events := events o |}
    end.

(** [try: m except C1: h1 except C2: h2 ...]: a clause is a class test and
    a handler; the first clause whose test accepts the exception handles it,
    and an exception raised by a handler is not handled again. *)
Definition clause (A : Type) : Type := ((exn → bool) * (exn → M A))%type.

Fixpoint find_clause {A} (clauses : list (clause A)) (e : exn) : option (exn → M A) :=
  match clauses with
  | [] => None
  | (test, h) :: rest => if test e then Some h else find_clause rest e
  end.

Definition try_except {A} (m : M A) (clauses : list (clause A)) : M A :=
  λ st,
    let o := m st in
    match res o with
    | Ok a => o
    | Raise e =>
      match find_clause clauses e with
      | Some h =>
        let o' := h e (final o) in
        {| res := res o'; final := final o'; events := events o ++ events o' |}
      | None => o
      end
    end.

Definition emit (e : event) : M unit :=
  λ st, {| res := Ok tt; final := st; events := [e] |}.

Definition get_state : M State :=
  λ st, {| res := Ok st; final := st; events := [] |}.

Definition put_state (st' : State) : M unit :=
  λ _, {| res := Ok tt; final := st'; events := [] |}.

(** Lift an outcome supplied by the environment. *)
Definition lift_result {A} (r : result A) : M A :=
  match r with Ok a => ret a | Raise e => raise e end.

Definition lift_failure (r : option exn) : M unit :=
  match r with None => ret tt | Some e => raise e end.

(** stdpp's monad notations ([x ← m; k] and [m ;; k]) for [M]. *)
#[global] Instance M_ret : MRet M := @ret.
#[global] Instance M_bind : MBind M := λ A B k m, bind m k.

(** ** The methods of [MetScraper] *)

Section MetScraper.

Context (env : Env).

(** [open(self.output_file, 'r', encoding='utf-8')] and [json.load(f)]. *)
Definition read_output : M (list (gmap string value)) :=
  st ← get_state;
  match output_file st with
  | Absent => raise FileNotFoundError
  | Unparsable => raise JSONDecodeError
  | Undecodable => raise UnicodeDecodeError
  | Unreadable e => raise e
  | Content c => ret c
  end.

Definition _load_existing_metadata : M (list (gmap string value)) :=
  try_except read_output
    [ (is_FileNotFoundError, λ _, ret []);
      (is_JSONDecodeError, λ _, ret []) ].

(** [set(item['objectID'] for item in self.metadata)] *)
Fixpoint ids_of_metadata (items : list (gmap string value)) : result (gset hkey) :=
  match items with
  | [] => Ok ∅
  | item :: rest =>
    match item !! "objectID" with
    | None => Raise KeyError
    | Some v =>
      match hash_key v with
      | None => Raise TypeError
      | Some k =>
        match ids_of_metadata rest with
        | Ok s => Ok ({[ k ]} ∪ s)
        | Raise e => Raise e
        end
      end
    end
  end.

(** [__init__]: the part that touches the state. *)
Definition __init__ : M unit :=
  lift_failure (mkdir_images env);;
  loaded ← _load_existing_metadata;
  ids ← lift_result (ids_of_metadata loaded);
  st ← get_state;
  put_state {| metadata := loaded; processed_ids := ids;
               output_file := output_file st |}.

Definition _load_object_ids : M (list Z) :=
  try_except
    (data ← lift_result (read_input env);
     match data with
     | DocArray ids => ret ids
     | DocObject (Some ids) => ret ids
     | DocObject None | DocOther => raise ValueError
     end)
    [ (is_Exception, λ e, raise e) ].

Definition _get_optimized_image_url (original_url : string) : string :=
  if String.eqb original_url "" then ""
  else Str.replace original_url "/original/" "/web-large/".

Definition _fetch_artwork_data (idx : nat) (object_id : Z)
  : M (option (gmap string value)) :=
  try_except
    (emit (EvFetch object_id);;
     d ← lift_result (get_object env idx object_id);
     ret (Some d))
    [ (is_RequestException, λ _, ret None) ].

(** The extension chosen from the content type and the URL. *)
Definition choose_ext (content_type image_url : string) : string :=
  if Str.contains "jpeg" content_type || Str.contains "jpg" content_type
     || Str.endswith image_url ".jpg"
  then ".jpg"
  else if Str.contains "png" content_type || Str.endswith image_url ".png"
  then ".png"
  else ".jpg".

Definition _download_image (idx : nat) (image_url : string) (object_id : Z)
  : M (option string) :=
  if String.eqb image_url "" then ret None
  else
    try_except
      (emit (EvDownload image_url object_id);;
       header ← lift_result (get_image env idx image_url);
       let content_type := default "" header in
       let ext := choose_ext content_type image_url in
       let filename := pretty object_id +:+ ext in
       lift_failure (open_asset env idx filename);;
       emit (EvOpenAsset filename);;
       lift_failure (stream_asset env idx);;
       ret (Some filename))
      [ (is_RequestException, λ _, ret None) ].

Definition opt_str (o : option string) : value :=
  match o with None => VNone | Some s => VStr s end.

Definition _extract_metadata (artwork_data : gmap string value)
    (local_image_filename : option string) : gmap string value :=
  list_to_map
    [ ("objectID", dict_get artwork_data "objectID" VNone);
      ("title", dict_get artwork_data "title" (VStr "Untitled"));
      ("artistDisplayName", dict_get artwork_data "artistDisplayName" (VStr ""));
      ("artistDisplayBio", dict_get artwork_data "artistDisplayBio" (VStr ""));
      ("objectDate", dict_get artwork_data "objectDate" (VStr ""));
      ("objectName", dict_get artwork_data "objectName" (VStr ""));
      ("medium", dict_get artwork_data "medium" (VStr ""));
      ("dimensions", dict_get artwork_data "dimensions" (VStr ""));
      ("department", dict_get artwork_data "department" (VStr ""));
      ("culture", dict_get artwork_data "culture" (VStr ""));
      ("period", dict_get artwork_data "period" (VStr ""));
      ("dynasty", dict_get artwork_data "dynasty" (VStr ""));
      ("creditLine", dict_get artwork_data "creditLine" (VStr ""));
      ("objectURL", dict_get artwork_data "objectURL" (VStr ""));
      ("isPublicDomain", dict_get artwork_data "isPublicDomain" (VBool false));
      ("primaryImage", dict_get artwork_data "primaryImage" (VStr ""));
      ("primaryImageSmall", dict_get artwork_data "primaryImageSmall" (VStr ""));
      ("localImage", opt_str local_image_filename);
      ("tags", dict_get artwork_data "tags" (VList [])) ].

Definition _save_metadata (idx : nat) : M unit :=
  st ← get_state;
  match write_output env idx with
  | SaveOpenFails e => raise e
  | SaveDumpFails e =>
    emit (EvSave (metadata st));;
    put_state {| metadata := metadata st; processed_ids := processed_ids st;
                 output_file := Unparsable |};;
    raise e
  | SaveOk =>
    emit (EvSave (metadata st));;
    put_state {| metadata := metadata st; processed_ids := processed_ids st;
                 output_file := Content (metadata st) |}
  end.

(** [time.sleep(self.rate_limit_delay)] *)
Definition sleep : M unit := emit EvSleep.

(** [self.metadata.append(entry)] and [self.processed_ids.add(object_id)] *)
Definition append_metadata (object_id : Z) (entry : gmap string value) : M unit :=
  st ← get_state;
  put_state {| metadata := metadata st ++ [entry];
               processed_ids := processed_ids st;
               output_file := output_file st |};;
  emit (EvAppend object_id entry).

Definition add_processed (object_id : Z) : M unit :=
  st ← get_state;
  put_state {| metadata := metadata st;
               processed_ids := {[ KInt object_id ]} ∪ processed_ids st;
               output_file := output_file st |};;
  emit (EvAddProcessed object_id).

(** The download stage of one iteration (lines "Download image if
    requested"). [artwork_data['primaryImage']] is truthy here; calling
    [.replace] on anything but a string raises. *)
Definition download_stage (download_images : bool) (idx : nat) (object_id : Z)
    (artwork_data : gmap string value) : M (option string) :=
  if download_images then
    match artwork_data !! "primaryImage" with
    | Some (VStr u) => _download_image idx (_get_optimized_image_url u) object_id
    | Some _ => raise AttributeError
    | None => raise KeyError
    end
  else ret None.

(** [if len(self.metadata) % save_frequency == 0: self._save_metadata()] *)
Definition maybe_save (save_frequency : Z) (idx : nat) : M unit :=
  st ← get_state;
  if save_frequency =? 0 then raise ZeroDivisionError
  else if Z.of_nat (length (metadata st)) mod save_frequency =? 0
  then _save_metadata idx
  else ret tt.

(** The body of the [for] loop of [process_artworks]; [continue] ends it. *)
Definition process_one (download_images : bool) (save_frequency : Z)
    (idx : nat) (object_id : Z) : M unit :=
  st ← get_state;
  if bool_decide (KInt object_id ∈ processed_ids st) then ret tt
  else
    artwork_data ← _fetch_artwork_data idx object_id;
    match artwork_data with
    | None => sleep
    | Some d =>
      if negb (dict_truthy d) then sleep
      else if negb (truthy (dict_get d "isPublicDomain" VNone)) then sleep
      else if negb (truthy (dict_get d "primaryImage" VNone)) then sleep
      else
        local_image_filename ← download_stage download_images idx object_id d;
        append_metadata object_id (_extract_metadata d local_image_filename);;
        add_processed object_id;;
        maybe_save save_frequency idx;;
        sleep
    end.

(** [for idx, object_id in enumerate(object_ids, idx): body] *)
Fixpoint for_enumerate (body : nat → Z → M unit) (idx : nat) (object_ids : list Z)
  : M unit :=
  match object_ids with
  | [] => ret tt
  | object_id :: rest => body idx object_id;; for_enumerate body (S idx) rest
  end.

Definition process_artworks (download_images : bool) (save_frequency : Z) : M unit :=
  object_ids ← _load_object_ids;
  for_enumerate (process_one download_images save_frequency) 1%nat object_ids;;
  _save_metadata 0%nat.

(** [main]: construct the scraper, then run the loop. *)
Definition main (download_images : bool) (save_frequency : Z) : M unit :=
  __init__;;
  process_artworks download_images save_frequency.

End MetScraper.

(** The state before [__init__] has run, for a given output file. *)
Definition boot (disk : file_state) : State :=
  {| metadata := []; processed_ids := ∅; output_file := disk |}.

(** ** Outcome of one loop iteration, case by case *)

(** The eligibility tests of the loop body: a non-empty response that is
    public domain and has a primary image. *)
Definition eligible (d : gmap string value) : bool :=
  dict_truthy d
  && truthy (dict_get d "isPublicDomain" VNone)
  && truthy (dict_get d "primaryImage" VNone).

(** The state after [append] and [add]. *)
Definition accepted (st : State) (object_id : Z) (entry : gmap string value) : State :=
  {| metadata := metadata st ++ [entry];
     processed_ids := {[ KInt object_id ]} ∪ processed_ids st;
     output_file := output_file st |}.

Definition outcome {A} (r : result A) (st : State) (evs : list event) : Outcome A :=
  {| res := r; final := st; events := evs |}.

Definition is_ok {A} (r : result A) : bool :=
  match r with Ok _ => true | Raise _ => false end.

Ltac run_monad :=
  unfold mbind, mret, M_bind, M_ret, bind, try_except;
  cbn [ret raise emit get_state put_state lift_result lift_failure
       find_clause res final events app outcome].

Section StepLemmas.

Context (env : Env) (download_images : bool) (save_frequency : Z).
Context (idx : nat) (object_id : Z) (st : State).

Local Abbreviation step := (process_one env download_images save_frequency idx object_id st).

Lemma process_one_skip :
  KInt object_id ∈ processed_ids st →
  step = outcome (Ok tt) st [].
Proof.
  intros Hin. unfold process_one. run_monad.
  rewrite bool_decide_eq_true_2 by exact Hin. reflexivity.
Qed.

Lemma fetch_failed e :
  get_object env idx object_id = Raise e →
  is_RequestException e = true →
  _fetch_artwork_data env idx object_id st = outcome (Ok None) st [EvFetch object_id].
Proof.
  intros Hget Hreq. unfold _fetch_artwork_data. run_monad.
  rewrite Hget. run_monad. rewrite Hreq. reflexivity.
Qed.

Lemma fetch_raises e :
  get_object env idx object_id = Raise e →
  is_RequestException e = false →
  _fetch_artwork_data env idx object_id st = outcome (Raise e) st [EvFetch object_id].
Proof.
  intros Hget Hreq. unfold _fetch_artwork_data. run_monad.
  rewrite Hget. run_monad. rewrite Hreq. reflexivity.
Qed.

Lemma fetch_ok d :
  get_object env idx object_id = Ok d →
  _fetch_artwork_data env idx object_id st = outcome (Ok (Some d)) st [EvFetch object_id].
Proof.
  intros Hget. unfold _fetch_artwork_data. run_monad.
  rewrite Hget. reflexivity.
Qed.

Lemma process_one_fetch_failed e :
  KInt object_id ∉ processed_ids st →
  get_object env idx object_id = Raise e →
  is_RequestException e = true →
  step = outcome (Ok tt) st [EvFetch object_id; EvSleep].
Proof.
  intros Hin Hget Hreq. unfold process_one. run_monad.
  rewrite bool_decide_eq_false_2 by exact Hin.
  run_monad. rewrite (fetch_failed e Hget Hreq). reflexivity.
Qed.

Lemma process_one_fetch_raises e :
  KInt object_id ∉ processed_ids st →
  get_object env idx object_id = Raise e →
  is_RequestException e = false →
  step = outcome (Raise e) st [EvFetch object_id].
Proof.
  intros Hin Hget Hreq. unfold process_one. run_monad.
  rewrite bool_decide_eq_false_2 by exact Hin.
  run_monad. rewrite (fetch_raises e Hget Hreq). reflexivity.
Qed.

Lemma process_one_ineligible d :
  KInt object_id ∉ processed_ids st →
  get_object env idx object_id = Ok d →
  eligible d = false →
  step = outcome (Ok tt) st [EvFetch object_id; EvSleep].
Proof.
  intros Hin Hget Hel. unfold process_one. run_monad.
  rewrite bool_decide_eq_false_2 by exact Hin.
  run_monad. rewrite (fetch_ok d Hget). run_monad.
  unfold eligible in Hel.
  destruct (dict_truthy d); [|reflexivity].
  destruct (truthy (dict_get d "isPublicDomain" VNone)); [|reflexivity].
  destruct (truthy (dict_get d "primaryImage" VNone)); [discriminate|reflexivity].
Qed.

(** The download never changes the state. *)
Lemma _download_image_final url :
  final (_download_image env idx url object_id st) = st.
Proof.
  unfold _download_image. destruct (String.eqb url ""); [reflexivity|].
  run_monad.
  destruct (get_image env idx url) as [header|e]; run_monad.
  - destruct (open_asset env idx _) as [e|]; run_monad.
    + destruct (is_RequestException e); reflexivity.
    + destruct (stream_asset env idx) as [e|]; run_monad; [|reflexivity].
      destruct (is_RequestException e); reflexivity.
  - destruct (is_RequestException e); reflexivity.
Qed.

Lemma download_stage_final d :
  final (download_stage env download_images idx object_id d st) = st.
Proof.
  unfold download_stage. destruct download_images; [|reflexivity].
  destruct (d !! "primaryImage") as [[]|]; try reflexivity.
  apply _download_image_final.
Qed.

Lemma maybe_save_zero :
  save_frequency = 0 →
  maybe_save env save_frequency idx st = outcome (Raise ZeroDivisionError) st [].
Proof. intros ->. reflexivity. Qed.

Lemma _save_metadata_fields :
  let o := _save_metadata env idx st in
  metadata (final o) = metadata st ∧ processed_ids (final o) = processed_ids st.
Proof.
  unfold _save_metadata. run_monad.
  destruct (write_output env idx); run_monad; split; reflexivity.
Qed.

Lemma maybe_save_fields :
  let o := maybe_save env save_frequency idx st in
  metadata (final o) = metadata st ∧ processed_ids (final o) = processed_ids st.
Proof.
  unfold maybe_save. run_monad.
  destruct (save_frequency =? 0); [split; reflexivity|].
  destruct (_ mod _ =? 0); [apply _save_metadata_fields|split; reflexivity].
Qed.

Lemma process_one_eligible d :
  KInt object_id ∉ processed_ids st →
  get_object env idx object_id = Ok d →
  eligible d = true →
  step =
    let od := download_stage env download_images idx object_id d st in
    match res od with
    | Raise e => outcome (Raise e) st (EvFetch object_id :: events od)
    | Ok local =>
      let entry := _extract_metadata d local in
      let os := maybe_save env save_frequency idx (accepted st object_id entry) in
      outcome (res os) (final os)
        (EvFetch object_id :: events od
           ++ EvAppend object_id entry :: EvAddProcessed object_id :: events os
           ++ (if is_ok (res os) then [EvSleep] else []))
    end.
Proof.
  intros Hin Hget Hel. unfold process_one. run_monad.
  rewrite bool_decide_eq_false_2 by exact Hin.
  run_monad. rewrite (fetch_ok d Hget). run_monad.
  unfold eligible in Hel.
  apply andb_prop in Hel as [Hel Himg]. apply andb_prop in Hel as [Hne Hpd].
  rewrite Hne, Hpd, Himg. cbn [negb].
  pose proof (download_stage_final d) as Hfin.
  destruct (download_stage env download_images idx object_id d st)
    as [r st' evs]; cbn [res final events] in *. subst st'.
  destruct r as [local|e]; [|reflexivity].
  unfold append_metadata, add_processed. run_monad.
  fold (accepted st object_id (_extract_metadata d local)).
  destruct (maybe_save env save_frequency idx _) as [rs sts es];
    cbn [res final events].
  destruct rs as [[]|e]; cbn [is_ok]; unfold outcome; f_equal;
    cbn [app]; rewrite <- ?app_assoc; cbn [app]; rewrite ?app_nil_r; reflexivity.
Qed.

End StepLemmas.

(** ** The per-ID state machine

    Every iteration ends in one of five shapes. Download events and save
    events are kept apart from the events the invariants speak about. *)

Definition is_download_event (e : event) : Prop :=
  match e with EvDownload _ _ | EvOpenAsset _ => True | _ => False end.

Inductive step_kind (st : State) (object_id : Z) : Outcome unit → Prop :=
| SkippedProcessed :
    KInt object_id ∈ processed_ids st →
    step_kind st object_id (outcome (Ok tt) st [])
| FetchRaised e :
    KInt object_id ∉ processed_ids st →
    step_kind st object_id (outcome (Raise e) st [EvFetch object_id])
| Rejected :
    (* fetch failed, or the record is not eligible *)
    KInt object_id ∉ processed_ids st →
    step_kind st object_id (outcome (Ok tt) st [EvFetch object_id; EvSleep])
| DownloadRaised e dl :
    KInt object_id ∉ processed_ids st →
    Forall is_download_event dl →
    step_kind st object_id (outcome (Raise e) st (EvFetch object_id :: dl))
| Accepted entry dl r st' sv :
    KInt object_id ∉ processed_ids st →
    Forall is_download_event dl →
    Forall (λ e, e = EvSave (metadata st')) sv →
    metadata st' = metadata st ++ [entry] →
    processed_ids st' = {[ KInt object_id ]} ∪ processed_ids st →
    step_kind st object_id
      (outcome r st'
         (EvFetch object_id :: dl
            ++ EvAppend object_id entry :: EvAddProcessed object_id :: sv
            ++ (if is_ok r then [EvSleep] else []))).

Section StepKind.

Context (env : Env) (download_images : bool) (save_frequency : Z).

Lemma _download_image_events idx url object_id st :
  Forall is_download_event (events (_download_image env idx url object_id st)).
Proof.
  unfold _download_image. destruct (String.eqb url ""); [constructor|].
  run_monad.
  destruct (get_image env idx url) as [header|e]; run_monad.
  - destruct (open_asset env idx _) as [e|]; run_monad.
    + destruct (is_RequestException e); repeat constructor.
    + destruct (stream_asset env idx) as [e|]; run_monad;
        [destruct (is_RequestException e)|]; repeat constructor.
  - destruct (is_RequestException e); repeat constructor.
Qed.

Lemma download_stage_events idx object_id d st :
  Forall is_download_event
    (events (download_stage env download_images idx object_id d st)).
Proof.
  unfold download_stage. destruct download_images; [|constructor].
  destruct (d !! "primaryImage") as [[]|]; try constructor.
  apply _download_image_events.
Qed.

Lemma _save_metadata_events idx st :
  Forall (λ e, e = EvSave (metadata st)) (events (_save_metadata env idx st)).
Proof.
  unfold _save_metadata. run_monad.
  destruct (write_output env idx); run_monad; repeat constructor.
Qed.

Lemma maybe_save_events idx st :
  Forall (λ e, e = EvSave (metadata st))
    (events (maybe_save env save_frequency idx st)).
Proof.
  unfold maybe_save. run_monad.
  destruct (save_frequency =? 0); [constructor|].
  destruct (_ mod _ =? 0); [apply _save_metadata_events|constructor].
Qed.

Lemma process_one_kind idx object_id st :
  step_kind st object_id
    (process_one env download_images save_frequency idx object_id st).
Proof.
  destruct (decide (KInt object_id ∈ processed_ids st)) as [Hin|Hin].
  { rewrite process_one_skip by exact Hin. by constructor. }
  destruct (get_object env idx object_id) as [d|e] eqn:Hget.
  - destruct (eligible d) eqn:Hel.
    + rewrite (process_one_eligible _ _ _ _ _ _ d Hin Hget Hel). cbv zeta.
      pose proof (download_stage_events idx object_id d st) as Hdl.
      destruct (res (download_stage env download_images idx object_id d st))
        as [local|e].
      * pose proof (maybe_save_fields env save_frequency idx
          (accepted st object_id (_extract_metadata d local))) as [Hm Hp].
        pose proof (maybe_save_events idx
          (accepted st object_id (_extract_metadata d local))) as Hsv.
        rewrite <- Hm in Hsv. by apply Accepted.
      * by apply DownloadRaised.
    + rewrite (process_one_ineligible _ _ _ _ _ _ d Hin Hget Hel).
      by constructor.
  - destruct (is_RequestException e) eqn:Hreq.
    + rewrite (process_one_fetch_failed _ _ _ _ _ _ e Hin Hget Hreq).
      by constructor.
    + rewrite (process_one_fetch_raises _ _ _ _ _ _ e Hin Hget Hreq).
      by constructor.
Qed.

End StepKind.

(** ** Reading a trace *)

(** IDs fetched, entries appended (with the ID that caused the append) and
    the number of rate-limit waits, in trace order. *)
Definition fetched (evs : list event) : list Z :=
  omap (λ e, match e with EvFetch object_id => Some object_id | _ => None end) evs.

Definition appended (evs : list event) : list (Z * gmap string value) :=
  omap (λ e, match e with
             | EvAppend object_id entry => Some (object_id, entry)
             | _ => None
             end) evs.

Definition saved (evs : list event) : list (list (gmap string value)) :=
  omap (λ e, match e with EvSave snapshot => Some snapshot | _ => None end) evs.

Definition is_sleep (e : event) : bool :=
  match e with EvSleep => true | _ => false end.

Definition sleeps (evs : list event) : nat :=
  length (List.filter is_sleep evs).

Definition is_add (object_id : Z) (e : event) : Prop :=
  match e with EvAddProcessed id' => id' = object_id | _ => False end.

Lemma fetched_app evs1 evs2 : fetched (evs1 ++ evs2) = fetched evs1 ++ fetched evs2.
Proof. apply omap_app. Qed.

Lemma appended_app evs1 evs2 : appended (evs1 ++ evs2) = appended evs1 ++ appended evs2.
Proof. apply omap_app. Qed.

Lemma saved_app evs1 evs2 : saved (evs1 ++ evs2) = saved evs1 ++ saved evs2.
Proof. apply omap_app. Qed.

Lemma sleeps_app evs1 evs2 : sleeps (evs1 ++ evs2) = (sleeps evs1 + sleeps evs2)%nat.
Proof. unfold sleeps. by rewrite List.filter_app, length_app. Qed.

(** Download and save events are invisible to the three readers. *)
Definition silent (e : event) : Prop :=
  match e with EvDownload _ _ | EvOpenAsset _ | EvSave _ => True | _ => False end.

Lemma download_silent evs : Forall is_download_event evs → Forall silent evs.
Proof. intros H. eapply Forall_impl; [exact H|]. by intros []. Qed.

Lemma save_silent evs snapshot :
  Forall (λ e, e = EvSave snapshot) evs → Forall silent evs.
Proof. intros H. eapply Forall_impl; [exact H|]. by intros ? ->. Qed.

Lemma silent_fetched evs : Forall silent evs → fetched evs = [].
Proof. induction 1 as [|[] ? H]; cbn in *; by try done. Qed.

Lemma silent_appended evs : Forall silent evs → appended evs = [].
Proof. induction 1 as [|[] ? H]; cbn in *; by try done. Qed.

Lemma silent_sleeps evs : Forall silent evs → sleeps evs = 0%nat.
Proof. induction 1 as [|[] ? H]; cbn in *; by try done. Qed.

Lemma silent_no_add evs object_id e :
  Forall silent evs → e ∈ evs → ¬ is_add object_id e.
Proof.
  intros Hs Hin. rewrite Forall_forall in Hs. specialize (Hs e Hin).
  destruct e; cbn in *; tauto.
Qed.

Create HintDb trace.
Lemma download_saved evs : Forall is_download_event evs → saved evs = [].
Proof. induction 1 as [|[] ? H]; cbn in *; by try done. Qed.

Lemma save_saved evs snapshot x :
  Forall (λ e, e = EvSave snapshot) evs → x ∈ saved evs → x = snapshot.
Proof.
  induction 1 as [|? ? -> ? IH]; cbn.
  - by intros ?%elem_of_nil.
  - intros [->|?]%elem_of_cons; auto.
Qed.

#[local] Hint Resolve download_silent save_silent : trace.

(** ** The invariant of the loop

    [run_inv st o] relates a state [st] to the outcome [o] of running any
    number of iterations from it. *)

Record run_inv (st : State) (o : Outcome unit) : Prop := {
  (* the collection only grows, by the appended entries, in order *)
  inv_metadata :
    metadata (final o) = metadata st ++ (appended (events o)).*2;
  (* the processed-ID set grows by exactly the IDs whose entry was appended *)
  inv_processed :
    processed_ids (final o)
    = list_to_set (KInt <$> (appended (events o)).*1) ∪ processed_ids st;
  (* an ID is fetched only when it was not processed at the start *)
  inv_fetched_fresh :
    ∀ object_id, object_id ∈ fetched (events o) → KInt object_id ∉ processed_ids st;
  inv_appended_fetched :
    ∀ object_id, object_id ∈ (appended (events o)).*1 → object_id ∈ fetched (events o);
  (* at most one append per ID *)
  inv_nodup : NoDup (appended (events o)).*1;
  (* an ID is added to the set only after the append of its entry *)
  inv_order :
    ∀ pre object_id post,
      events o = pre ++ EvAddProcessed object_id :: post →
      ∃ entry, EvAppend object_id entry ∈ pre;
  (* every collection written to the output file lies between the initial
     and the final one *)
  inv_saves :
    ∀ snapshot, snapshot ∈ saved (events o) →
      metadata st `prefix_of` snapshot ∧ snapshot `prefix_of` metadata (final o);
  (* one wait per fetch, except in an iteration that raised *)
  inv_sleeps :
    (sleeps (events o) ≤ length (fetched (events o))
     ≤ sleeps (events o) + (if is_ok (res o) then 0 else 1))%nat
}.

Lemma run_inv_nil st r : run_inv st (outcome r st []).
Proof.
  split; cbn [res final events outcome appended fetched sleeps omap fmap
                list_fmap List.filter length is_ok list_omap].
  - by rewrite app_nil_r.
  - set_solver.
  - by intros ? ?%elem_of_nil.
  - by intros ? ?%elem_of_nil.
  - constructor.
  - by intros [|??] ???.
  - by intros ? ?%elem_of_nil.
  - destruct (is_ok r); lia.
Qed.

Lemma run_inv_seq st o1 o2 :
  run_inv st o1 → run_inv (final o1) o2 → is_ok (res o1) = true →
  run_inv st (outcome (res o2) (final o2) (events o1 ++ events o2)).
Proof.
  intros [Hm1 Hp1 Hf1 Ha1 Hn1 Ho1 Hv1 Hs1] [Hm2 Hp2 Hf2 Ha2 Hn2 Ho2 Hv2 Hs2] Hok.
  rewrite Hok in Hs1.
  split; cbn [res final events outcome];
    rewrite ?appended_app, ?fetched_app, ?sleeps_app, ?saved_app, ?fmap_app,
      ?length_app.
  - by rewrite Hm2, Hm1, <- app_assoc.
  - rewrite Hp2, Hp1, list_to_set_app_L. set_solver.
  - intros id [Hin|Hin]%elem_of_app; [by apply Hf1|].
    apply Hf2 in Hin. rewrite Hp1 in Hin. set_solver.
  - intros id [Hin|Hin]%elem_of_app; apply elem_of_app; auto.
  - apply NoDup_app. split_and!; [done| |done].
    intros id Hin1 Hin2. apply Ha2, Hf2 in Hin2. apply Hin2.
    rewrite Hp1. apply elem_of_union_l, elem_of_list_to_set, list_elem_of_fmap.
    eauto.
  - intros pre id post Heq.
    apply app_eq_app in Heq as [l [[Heq1 Heq2]|[Heq1 Heq2]]].
    + destruct l as [|e l]; cbn in Heq2.
      * symmetry in Heq2.
        apply (Ho2 []) in Heq2 as [entry Hin]. by apply elem_of_nil in Hin.
      * injection Heq2 as <- ->. by apply Ho1 in Heq1.
    + apply Ho2 in Heq2 as [entry Hin]. exists entry.
      rewrite Heq1. apply elem_of_app; auto.
  - intros snapshot [Hin|Hin]%elem_of_app.
    + apply Hv1 in Hin as [Hlo Hhi]. split; [done|].
      etrans; [exact Hhi|]. rewrite Hm2. by apply prefix_app_r.
    + apply Hv2 in Hin as [Hlo Hhi]. split; [|done].
      etrans; [|exact Hlo]. rewrite Hm1. by apply prefix_app_r.
  - lia.
Qed.

(** A trace without [EvAddProcessed]. *)
Definition no_adds (evs : list event) : Prop :=
  ∀ e, e ∈ evs → ∀ object_id, ¬ is_add object_id e.

Lemma no_adds_order evs pre object_id post :
  no_adds evs → evs ≠ pre ++ EvAddProcessed object_id :: post.
Proof.
  intros Hno ->. apply (Hno (EvAddProcessed object_id)) with object_id; [|done].
  apply elem_of_app. right. constructor.
Qed.

Lemma silent_no_adds evs : Forall silent evs → no_adds evs.
Proof. intros Hs e Hin id. by eapply silent_no_add. Qed.

Lemma no_adds_app evs1 evs2 : no_adds evs1 → no_adds evs2 → no_adds (evs1 ++ evs2).
Proof. intros H1 H2 e [?|?]%elem_of_app; auto. Qed.

Lemma no_adds_tail (r : result unit) : no_adds (if is_ok r then [EvSleep] else []).
Proof.
  intros e Hin id. destruct (is_ok r).
  - apply list_elem_of_singleton in Hin as ->. cbn; tauto.
  - by apply elem_of_nil in Hin.
Qed.

(** The one shape in which an ID is added: right after the append. *)
Lemma accepted_order l1 l2 id entry pre object_id post :
  no_adds l1 → no_adds l2 →
  l1 ++ EvAppend id entry :: EvAddProcessed id :: l2
  = pre ++ EvAddProcessed object_id :: post →
  ∃ entry', EvAppend object_id entry' ∈ pre.
Proof.
  intros Hn1 Hn2 Heq.
  apply app_eq_app in Heq as [l [[Heq1 Heq2]|[Heq1 Heq2]]].
  - destruct l as [|e l]; cbn in Heq2; [discriminate|].
    injection Heq2 as <- _. by apply no_adds_order in Heq1.
  - destruct l as [|e [|e' l]]; cbn in Heq2.
    + discriminate.
    + injection Heq2 as <- -> ->. exists entry. rewrite Heq1.
      apply elem_of_app. right. constructor.
    + injection Heq2 as <- <- Heq2. by apply no_adds_order in Heq2.
Qed.

(** An iteration that fetched [object_id] and left the state as it was. *)
Lemma run_inv_unchanged st r object_id evs :
  KInt object_id ∉ processed_ids st →
  fetched evs = [object_id] →
  appended evs = [] →
  saved evs = [] →
  no_adds evs →
  (sleeps evs ≤ 1 ≤ sleeps evs + (if is_ok r then 0 else 1))%nat →
  run_inv st (outcome r st evs).
Proof.
  intros Hin Hf Ha Hv Hno Hs.
  split; cbn [res final events outcome]; rewrite ?Hf, ?Ha, ?Hv;
    cbn [fmap list_fmap length].
  - by rewrite app_nil_r.
  - set_solver.
  - by intros ? ->%list_elem_of_singleton.
  - by intros ? ?%elem_of_nil.
  - constructor.
  - intros pre id post Heq. by apply no_adds_order in Heq.
  - by intros ? ?%elem_of_nil.
  - exact Hs.
Qed.

Section RunInvariant.

Context (env : Env) (download_images : bool) (save_frequency : Z).

Lemma run_inv_step idx object_id st :
  run_inv st (process_one env download_images save_frequency idx object_id st).
Proof.
  destruct (process_one_kind env download_images save_frequency idx object_id st)
    as [Hin|e Hin|Hin|e dl Hin Hdl|entry dl r st' sv Hin Hdl Hsv Hm Hp].
  - apply run_inv_nil.
  - apply run_inv_unchanged with object_id;
      [done|reflexivity|reflexivity|reflexivity| |cbn; lia].
    intros ev ->%list_elem_of_singleton id'. cbn; tauto.
  - apply run_inv_unchanged with object_id;
      [done|reflexivity|reflexivity|reflexivity| |cbn; lia].
    intros ev [->| ->%list_elem_of_singleton]%elem_of_cons id'; cbn; tauto.
  - pose proof (download_saved dl Hdl) as Hdv. apply download_silent in Hdl.
    change (EvFetch object_id :: dl) with ([EvFetch object_id] ++ dl).
    apply run_inv_unchanged with object_id;
      rewrite ?appended_app, ?fetched_app, ?sleeps_app, ?saved_app, ?Hdv,
        ?(silent_appended dl), ?(silent_fetched dl), ?(silent_sleeps dl) by done;
      [done|reflexivity|reflexivity|reflexivity| |cbn; lia].
    apply (no_adds_app [_]); [|by apply silent_no_adds].
    intros ev ->%list_elem_of_singleton id'. cbn; tauto.
  - pose proof (download_saved dl Hdl) as Hdv.
    pose proof (λ x, save_saved sv (metadata st') x Hsv) as Hsaved.
    apply download_silent in Hdl. apply save_silent in Hsv.
    set (tail := if is_ok r then [EvSleep] else []).
    assert (Hrd :
      let evs := EvFetch object_id :: dl
                 ++ EvAppend object_id entry :: EvAddProcessed object_id :: sv ++ tail in
      fetched evs = [object_id] ∧ appended evs = [(object_id, entry)]
      ∧ sleeps evs = (if is_ok r then 1 else 0)%nat
      ∧ saved evs = saved sv).
    { cbv zeta.
      change (EvFetch object_id :: dl ++ ?x) with ([EvFetch object_id] ++ dl ++ x).
      change (EvAppend object_id entry :: EvAddProcessed object_id :: sv ++ tail)
        with ([EvAppend object_id entry; EvAddProcessed object_id] ++ sv ++ tail).
      rewrite !appended_app, !fetched_app, !sleeps_app, !saved_app, Hdv,
        (silent_appended dl), (silent_fetched dl), (silent_sleeps dl),
        (silent_appended sv), (silent_fetched sv), (silent_sleeps sv) by done.
      subst tail. destruct (is_ok r); cbn; by rewrite ?app_nil_r. }
    cbv zeta in Hrd. destruct Hrd as (Hf & Ha & Hs & Hv).
    split; cbn [res final events outcome]; rewrite ?Hf, ?Ha, ?Hs, ?Hv; cbn.
    + done.
    + rewrite Hp. set_solver.
    + by intros ? ->%list_elem_of_singleton.
    + by intros ? ->%list_elem_of_singleton; constructor.
    + apply NoDup_singleton.
    + intros pre id post Heq.
      apply (accepted_order (EvFetch object_id :: dl) (sv ++ tail)
               object_id entry pre id post); [| |exact Heq].
      * apply (no_adds_app [_]); [|by apply silent_no_adds].
        intros e ->%list_elem_of_singleton id'. cbn; tauto.
      * apply no_adds_app; [by apply silent_no_adds|apply no_adds_tail].
    + intros snapshot ->%Hsaved. split; [|done].
      rewrite Hm. by apply prefix_app_r.
    + destruct (is_ok r); lia.
Qed.

Lemma run_inv_loop object_ids : ∀ idx st,
  run_inv st
    (for_enumerate (process_one env download_images save_frequency)
       idx object_ids st).
Proof.
  induction object_ids as [|object_id rest IH]; intros idx st.
  - apply run_inv_nil.
  - cbn [for_enumerate]. run_monad.
    pose proof (run_inv_step idx object_id st) as Hstep.
    destruct (res (process_one _ _ _ idx object_id st)) as [[]|e] eqn:Hres.
    + apply (run_inv_seq st _ _ Hstep (IH (S idx) _)). by rewrite Hres.
    + destruct (process_one _ _ _ idx object_id st) as [r st' evs].
      cbn in *. by subst r.
Qed.

End RunInvariant.

(** ** The whole run, unfolded *)

(** What [_load_object_ids] returns, read off the environment. *)
Definition object_ids_of (env : Env) : result (list Z) :=
  match read_input env with
  | Ok (DocArray ids) => Ok ids
  | Ok (DocObject (Some ids)) => Ok ids
  | Ok (DocObject None) | Ok DocOther => Raise ValueError
  | Raise e => Raise e
  end.

Lemma bind_assoc {A B C} (m : M A) (f : A → M B) (g : B → M C) st :
  bind (bind m f) g st = bind m (λ a, bind (f a) g) st.
Proof.
  unfold bind. destruct (m st) as [[a|e] st1 evs1]; cbn [res final events]; [|done].
  destruct (f a st1) as [[b|e] st2 evs2]; cbn [res final events]; [|done].
  by rewrite app_assoc.
Qed.

Lemma bind_ret_l {A B} (a : A) (k : A → M B) st : bind (ret a) k st = k a st.
Proof. unfold bind. cbn. by destruct (k a st). Qed.

Section Run.

Context (env : Env) (download_images : bool) (save_frequency : Z).

Local Abbreviation body := (process_one env download_images save_frequency).

Lemma _load_object_ids_outcome st :
  _load_object_ids env st = outcome (object_ids_of env) st [].
Proof.
  unfold _load_object_ids, object_ids_of. run_monad.
  destruct (read_input env) as [[ids|[ids|]|]|e]; run_monad; try reflexivity.
  by destruct e.
Qed.

Lemma for_enumerate_app pre post : ∀ idx st,
  for_enumerate body idx (pre ++ post) st
  = bind (for_enumerate body idx pre)
      (λ _, for_enumerate body (idx + length pre) post) st.
Proof.
  induction pre as [|object_id pre IH]; intros idx st.
  - cbn [app length for_enumerate]. rewrite Nat.add_0_r. by rewrite bind_ret_l.
  - cbn [app length for_enumerate]. unfold mbind, M_bind.
    rewrite bind_assoc. unfold bind at 1 2.
    destruct (body idx object_id st) as [[[]|e] st1 evs1];
      cbn [res final events]; [|done].
    rewrite IH. by rewrite Nat.add_succ_comm.
Qed.

(** The loop up to and including the iteration on [object_id]. *)
Lemma for_enumerate_split pre object_id post idx st :
  let o_pre := for_enumerate body idx pre st in
  let o_one := body (idx + length pre)%nat object_id (final o_pre) in
  is_ok (res o_pre) = true →
  for_enumerate body idx (pre ++ object_id :: post) st
  = match res o_one with
    | Raise e => outcome (Raise e) (final o_one) (events o_pre ++ events o_one)
    | Ok _ =>
      let o_post :=
        for_enumerate body (S (idx + length pre)) post (final o_one) in
      outcome (res o_post) (final o_post)
        (events o_pre ++ events o_one ++ events o_post)
    end.
Proof.
  intros o_pre o_one Hok. rewrite for_enumerate_app. unfold bind at 1.
  fold o_pre. destruct (res o_pre) as [[]|e]; [|discriminate].
  cbn [for_enumerate]. unfold mbind, M_bind, bind. fold o_one.
  destruct (res o_one) as [[]|e]; reflexivity.
Qed.

Lemma process_artworks_unfold st :
  process_artworks env download_images save_frequency st
  = match object_ids_of env with
    | Raise e => outcome (Raise e) st []
    | Ok object_ids =>
      let o_loop := for_enumerate body 1%nat object_ids st in
      match res o_loop with
      | Raise e => outcome (Raise e) (final o_loop) (events o_loop)
      | Ok _ =>
        let o_save := _save_metadata env 0%nat (final o_loop) in
        outcome (res o_save) (final o_save) (events o_loop ++ events o_save)
      end
    end.
Proof.
  unfold process_artworks. run_monad. rewrite _load_object_ids_outcome.
  cbn [res final events outcome].
  destruct (object_ids_of env) as [object_ids|e]; [|reflexivity].
  cbn [app]. destruct (res (for_enumerate _ _ _ _)) as [[]|e]; reflexivity.
Qed.

(** [__init__] emits nothing and does not touch the output file. *)
Lemma _load_existing_metadata_quiet st :
  let o := _load_existing_metadata st in
  final o = st ∧ events o = [].
Proof.
  unfold _load_existing_metadata, read_output. run_monad.
  destruct (output_file st) as [| | |e|c]; run_monad; try done.
  destruct e; done.
Qed.

Lemma __init___quiet st :
  let o := __init__ env st in
  output_file (final o) = output_file st ∧ events o = [].
Proof.
  unfold __init__. run_monad.
  destruct (mkdir_images env) as [e|]; run_monad; [done|].
  pose proof (_load_existing_metadata_quiet st) as [Hf He].
  destruct (_load_existing_metadata st) as [[loaded|e] st1 evs1];
    cbn [res final events] in *; subst; [|done].
  destruct (ids_of_metadata loaded); run_monad; done.
Qed.

Lemma main_unfold st :
  main env download_images save_frequency st
  = let o_init := __init__ env st in
    match res o_init with
    | Raise e => outcome (Raise e) (final o_init) []
    | Ok _ => process_artworks env download_images save_frequency (final o_init)
    end.
Proof.
  unfold main. run_monad. pose proof (__init___quiet st) as [_ He].
  destruct (__init__ env st) as [[[]|e] st1 evs1]; cbn [res final events] in *;
    subst; [|done].
  by destruct (process_artworks _ _ _ st1).
Qed.

End Run.

(** ** Concrete runs *)

Definition sample_url : string :=
  "https://images.metmuseum.org/CRDImages/ep/original/DT1567.jpg".

(** A public-domain record with an image, as the API returns it. *)
Definition raw_record (object_id : Z) : gmap string value :=
  list_to_map
    [ ("objectID", VInt object_id); ("title", VStr "Wheat Field with Cypresses");
      ("isPublicDomain", VBool true); ("primaryImage", VStr sample_url) ].

(** An environment in which every record is fetched and is eligible; the
    input file, the image request and the write of the image vary. *)
Definition sample_env (input : result input_doc) (image : result (option string))
    (stream : option exn) : Env :=
  {| mkdir_images := None;
     read_input := input;
     get_object := λ _ object_id, Ok (raw_record object_id);
     get_image := λ _ _, image;
     open_asset := λ _ _, None;
     stream_asset := λ _, stream;
     write_output := λ _, SaveOk |}.

(** * The claims *)

(** ** C2: the metadata projection *)

(** The keys of a persisted record, in the order of the dictionary literal. *)
Definition persisted_fields : list string :=
  [ "objectID"; "title"; "artistDisplayName"; "artistDisplayBio"; "objectDate";
    "objectName"; "medium"; "dimensions"; "department"; "culture"; "period";
    "dynasty"; "creditLine"; "objectURL"; "isPublicDomain"; "primaryImage";
    "primaryImageSmall"; "localImage"; "tags" ].

(** The value a field takes when the raw record lacks it. *)
Definition field_default (k : string) : value :=
  if String.eqb k "objectID" then VNone
  else if String.eqb k "title" then VStr "Untitled"
  else if String.eqb k "isPublicDomain" then VBool false
  else if String.eqb k "tags" then VList []
  else VStr "".

(** The three defaults the specification allows. *)
Definition empty_default (v : value) : Prop :=
  v = VStr "" ∨ v = VList [] ∨ v = VBool false.

(** C2, counterexample: for the raw record with no field at all, the
    projection gives [title] the default ['Untitled'] and [objectID] the
    default [None]; neither is an empty string, an empty list or false. *)
Lemma extract_metadata_other_defaults :
  (∅ : gmap string value) !! "title" = None
  ∧ _extract_metadata ∅ None !! "title" = Some (VStr "Untitled")
  ∧ ¬ empty_default (VStr "Untitled")
  ∧ (∅ : gmap string value) !! "objectID" = None
  ∧ _extract_metadata ∅ None !! "objectID" = Some VNone
  ∧ ¬ empty_default VNone.
Proof.
  repeat split; try reflexivity.
  - intros [H|[H|H]]; discriminate H.
  - intros [H|[H|H]]; discriminate H.
Qed.

(** C2, amended: for every raw record and every local filename, the
    projection has exactly the nineteen keys of a persisted record;
    [localImage] is the filename passed in ([None] when there is none), and
    every other field is the raw record's value when the raw record has the
    field, and otherwise its default: [None] for [objectID], ['Untitled'] for
    [title], [False] for [isPublicDomain], the empty list for [tags] and the
    empty string for the fourteen remaining fields. *)
Theorem extract_metadata_fields (artwork_data : gmap string value)
    (local_image_filename : option string) :
  let entry := _extract_metadata artwork_data local_image_filename in
  dom entry = list_to_set persisted_fields
  ∧ entry !! "localImage" = Some (opt_str local_image_filename)
  ∧ ∀ k, k ∈ persisted_fields → k ≠ "localImage" →
      entry !! k = Some (default (field_default k) (artwork_data !! k)).
Proof.
  cbv zeta. split_and!.
  - unfold _extract_metadata. rewrite dom_list_to_map_L. reflexivity.
  - reflexivity.
  - intros k Hk Hne. unfold persisted_fields in Hk.
    repeat (apply elem_of_cons in Hk as [->|Hk]);
      try reflexivity; try congruence.
    by apply elem_of_nil in Hk.
Qed.

(** A record with no [tags]: the persisted entry has the empty list. *)
Lemma extract_metadata_fields_witness :
  _extract_metadata (raw_record 2) (Some "2.jpg") !! "tags" = Some (VList []).
Proof.
  pose proof (extract_metadata_fields (raw_record 2) (Some "2.jpg")) as (_ & _ & H).
  apply (H "tags"); [|discriminate].
  unfold persisted_fields. repeat (constructor; try done).
Defined.

(** ** C9: the asset-URL rewrite *)

Lemma replace_from_skip old new t : ∀ s,
  Str.replace_from old new (t +:+ s) (String.length t) = Str.replace_from old new s 0.
Proof.
  induction t as [|c t IH]; intros s; cbn [String.append String.length].
  - reflexivity.
  - cbn [Str.replace_from]. apply IH.
Qed.

Lemma prefix_append t s : String.prefix t (t +:+ s) = true.
Proof.
  induction t as [|a t IH].
  - by destruct s.
  - change (String.prefix (String a t) (String a (t +:+ s)) = true).
    cbn [String.prefix]. destruct (ascii_dec a a); [exact IH|done].
Qed.

Lemma replace_nonempty_pattern old new s :
  old ≠ "" →
  Str.replace (old +:+ s) old new = new +:+ Str.replace s old new.
Proof.
  intros Hne. destruct old as [|c old]; [done|].
  pose proof (prefix_append (String c old) s) as Hpre.
  unfold Str.replace.
  change (String c old +:+ s) with (String c (old +:+ s)) in *.
  cbn [Str.replace_from]. rewrite Hpre. cbn [String.length Nat.sub].
  rewrite ?Nat.sub_0_r. by rewrite replace_from_skip.
Qed.

(** C9: the rewrite is a function of the URL alone (it takes no other
    argument), it maps the empty URL to the empty string, and on any other
    URL it is [str.replace]: scanning from the left, an occurrence of the
    full-resolution segment ['/original/'] is replaced by the
    display-resolution segment ['/web-large/'] and the scan goes on after
    it; a character that does not start an occurrence is kept. A URL with no
    ['/original/'] is returned unchanged, and the download request is made on
    the rewritten URL. *)
Theorem optimized_image_url_rewrite :
  _get_optimized_image_url "" = ""
  ∧ (∀ rest,
       _get_optimized_image_url ("/original/" +:+ rest)
       = "/web-large/" +:+ Str.replace rest "/original/" "/web-large/")
  ∧ (∀ c rest,
       String.prefix "/original/" (String c rest) = false →
       _get_optimized_image_url (String c rest)
       = String c (Str.replace rest "/original/" "/web-large/"))
  ∧ (∀ url, Str.contains "/original/" url = false →
       _get_optimized_image_url url = url)
  ∧ _get_optimized_image_url
      "https://images.metmuseum.org/CRDImages/ep/original/DT1567.jpg"
    = "https://images.metmuseum.org/CRDImages/ep/web-large/DT1567.jpg"
  ∧ (∀ env idx object_id d url st,
       d !! "primaryImage" = Some (VStr url) → url ≠ "" →
       ∃ evs,
         events (download_stage env true idx object_id d st)
         = EvDownload (_get_optimized_image_url url) object_id :: evs).
Proof.
  split_and!.
  - reflexivity.
  - intros rest. unfold _get_optimized_image_url.
    change (String.eqb ("/original/" +:+ rest) "") with false. cbv iota.
    by apply replace_nonempty_pattern.
  - intros c rest Hpre. unfold _get_optimized_image_url, Str.replace.
    cbn [String.eqb Str.replace_from]. by rewrite Hpre.
  - intros url Hno. unfold _get_optimized_image_url.
    destruct (String.eqb_spec url "") as [->|_]; [reflexivity|].
    unfold Str.replace. induction url as [|c url IH]; [reflexivity|].
    cbn [Str.contains] in Hno. apply orb_false_elim in Hno as [Hpre Hno].
    cbn [Str.replace_from]. rewrite Hpre. f_equal. by apply IH.
  - reflexivity.
  - intros env idx object_id d url st Hd Hne.
    unfold download_stage. rewrite Hd. unfold _download_image.
    assert (String.eqb (_get_optimized_image_url url) "" = false) as ->.
    { unfold _get_optimized_image_url, Str.replace.
      destruct url as [|c url]; [done|]. cbn [String.eqb Str.replace_from].
      by destruct (String.prefix _ _). }
    run_monad.
    destruct (get_image env idx _) as [header|e]; run_monad.
    + destruct (open_asset env idx _) as [e|]; run_monad.
      * destruct (is_RequestException e); eauto.
      * destruct (stream_asset env idx) as [e|]; run_monad;
          [destruct (is_RequestException e)|]; eauto.
    + destruct (is_RequestException e); eauto.
Qed.

(** A URL that is already display-resolution is left as it is. *)
Lemma optimized_image_url_rewrite_witness :
  _get_optimized_image_url "https://images.metmuseum.org/CRDImages/ep/web-large/DT1567.jpg"
  = "https://images.metmuseum.org/CRDImages/ep/web-large/DT1567.jpg".
Proof.
  pose proof optimized_image_url_rewrite as (_ & _ & _ & H & _).
  apply H. vm_compute. reflexivity.
Defined.

(** ** C5: loading the store *)

(** The two cases the handlers cover: when the output file is absent, and
    when it is present as text that is not valid JSON,
    [_load_existing_metadata] returns the empty list without raising;
    [__init__] then starts from an empty collection and an empty
    processed-ID set, and the run is the run of a fresh start. (The images
    directory is taken to be creatable.) *)
Lemma handled_load_failures_start_fresh (env : Env) (disk : file_state)
    (download_images : bool) (save_frequency : Z) :
  disk = Absent ∨ disk = Unparsable →
  mkdir_images env = None →
  _load_existing_metadata (boot disk) = outcome (Ok []) (boot disk) []
  ∧ res (__init__ env (boot disk)) = Ok tt
  ∧ metadata (final (__init__ env (boot disk))) = []
  ∧ processed_ids (final (__init__ env (boot disk))) = ∅
  ∧ main env download_images save_frequency (boot disk)
    = process_artworks env download_images save_frequency (boot disk).
Proof.
  intros Hdisk Hmkdir.
  assert (_load_existing_metadata (boot disk) = outcome (Ok []) (boot disk) [])
    as Hload by (destruct Hdisk as [-> | ->]; reflexivity).
  assert (__init__ env (boot disk) = outcome (Ok tt) (boot disk) []) as Hinit.
  { unfold __init__. run_monad. rewrite Hmkdir. run_monad. rewrite Hload.
    reflexivity. }
  split_and!; try (rewrite Hinit; reflexivity); [exact Hload|].
  rewrite main_unfold, Hinit. reflexivity.
Qed.

(** Outside the two handled cases an error of the read is not caught: it
    leaves [_load_existing_metadata] (a file that cannot be opened for lack
    of permission, for instance). *)
Lemma unreadable_output_raises (e : exn) :
  is_FileNotFoundError e = false →
  is_JSONDecodeError e = false →
  _load_existing_metadata (boot (Unreadable e))
  = outcome (Raise e) (boot (Unreadable e)) [].
Proof.
  intros Hnf Hjs. unfold _load_existing_metadata, read_output, boot. run_monad.
  cbn [output_file]. run_monad. by rewrite Hnf, Hjs.
Qed.

(** C5: a file that is present but whose bytes are not valid UTF-8 cannot be
    parsed either, and it is not taken as a fresh start. Reading it raises
    [UnicodeDecodeError], which is neither a [FileNotFoundError] nor a
    [json.JSONDecodeError]: [_load_existing_metadata] lets it through,
    [__init__] raises it, and the whole program ends there, with no ID
    fetched, nothing saved and the output file as it was found. *)
Theorem undecodable_output_ends_run (env : Env) (download_images : bool)
    (save_frequency : Z) :
  mkdir_images env = None →
  _load_existing_metadata (boot Undecodable)
  = outcome (Raise UnicodeDecodeError) (boot Undecodable) []
  ∧ __init__ env (boot Undecodable)
    = outcome (Raise UnicodeDecodeError) (boot Undecodable) []
  ∧ main env download_images save_frequency (boot Undecodable)
    = outcome (Raise UnicodeDecodeError) (boot Undecodable) [].
Proof.
  intros Hmkdir.
  assert (_load_existing_metadata (boot Undecodable)
          = outcome (Raise UnicodeDecodeError) (boot Undecodable) []) as Hload
    by reflexivity.
  assert (__init__ env (boot Undecodable)
          = outcome (Raise UnicodeDecodeError) (boot Undecodable) []) as Hinit.
  { unfold __init__. run_monad. rewrite Hmkdir. run_monad. rewrite Hload.
    reflexivity. }
  split_and!; [exact Hload|exact Hinit|].
  rewrite main_unfold, Hinit. reflexivity.
Qed.

Lemma undecodable_output_ends_run_witness :
  main (sample_env (Ok (DocArray [1])) (Ok None) None) true 10 (boot Undecodable)
  = outcome (Raise UnicodeDecodeError) (boot Undecodable) [].
Proof.
  apply (undecodable_output_ends_run
           (sample_env (Ok (DocArray [1])) (Ok None) None) true 10 eq_refl).
Defined.

(** ** C8: a malformed input ID list *)

(** An input document that is neither an array nor an object with the
    ['objectIDs'] key. *)
Definition malformed (doc : input_doc) : Prop :=
  match doc with
  | DocArray _ | DocObject (Some _) => False
  | DocObject None | DocOther => True
  end.

(** C8: when the input document is malformed, [process_artworks] raises
    [ValueError] at once, with the state as it was and no event at all: no
    ID is fetched and the output file is not written. The whole program
    ([__init__], then [process_artworks]) ends in an exception with the
    output file as it found it. *)
Theorem malformed_input_aborts (env : Env) (download_images : bool)
    (save_frequency : Z) (doc : input_doc) (disk : file_state) :
  read_input env = Ok doc →
  malformed doc →
  (∀ st, process_artworks env download_images save_frequency st
         = outcome (Raise ValueError) st [])
  ∧ is_ok (res (main env download_images save_frequency (boot disk))) = false
  ∧ events (main env download_images save_frequency (boot disk)) = []
  ∧ output_file (final (main env download_images save_frequency (boot disk))) = disk
  ∧ (is_ok (res (__init__ env (boot disk))) = true →
     res (main env download_images save_frequency (boot disk)) = Raise ValueError).
Proof.
  intros Hread Hbad.
  assert (∀ st, process_artworks env download_images save_frequency st
                = outcome (Raise ValueError) st []) as Hrun.
  { intros st. rewrite process_artworks_unfold. unfold object_ids_of.
    rewrite Hread. by destruct doc as [ids|[ids|]|]. }
  split; [exact Hrun|].
  rewrite main_unfold. cbv zeta.
  pose proof (__init___quiet env (boot disk)) as [Hfile _].
  destruct (res (__init__ env (boot disk))) as [[]|e]; rewrite ?Hrun;
    cbn [res final events outcome is_ok]; split_and!; try done.
Qed.

Lemma malformed_input_aborts_witness :
  process_artworks (sample_env (Ok (DocObject None)) (Ok None) None) true 10
    (boot (Content [raw_record 1]))
  = outcome (Raise ValueError) (boot (Content [raw_record 1])) [].
Proof.
  apply (malformed_input_aborts (sample_env (Ok (DocObject None)) (Ok None) None)
           true 10 (DocObject None) Absent eq_refl I).
Defined.

(** ** C6: errors during the download *)

(** The first exception of a download attempt, read off the environment:
    from the request, from opening the asset file, or from the loop that
    streams the body into it. *)
Definition download_error (env : Env) (idx : nat) (image_url : string)
    (object_id : Z) : option exn :=
  match get_image env idx image_url with
  | Raise e => Some e
  | Ok header =>
    let filename := pretty object_id +:+ choose_ext (default "" header) image_url in
    match open_asset env idx filename with
    | Some e => Some e
    | None => stream_asset env idx
    end
  end.




(** ** The invariant over the whole run *)

Lemma elem_of_fetched evs object_id :
  EvFetch object_id ∈ evs ↔ object_id ∈ fetched evs.
Proof.
  unfold fetched. rewrite list_elem_of_omap. split.
  - intros Hin. by exists (EvFetch object_id).
  - intros [[] [Hin Heq]]; try discriminate. by injection Heq as ->.
Qed.

Lemma elem_of_appended evs object_id entry :
  EvAppend object_id entry ∈ evs ↔ (object_id, entry) ∈ appended evs.
Proof.
  unfold appended. rewrite list_elem_of_omap. split.
  - intros Hin. by exists (EvAppend object_id entry).
  - intros [[] [Hin Heq]]; try discriminate. by injection Heq as -> ->.
Qed.

Lemma elem_of_saved evs snapshot :
  EvSave snapshot ∈ evs ↔ snapshot ∈ saved evs.
Proof.
  unfold saved. rewrite list_elem_of_omap. split.
  - intros Hin. by exists (EvSave snapshot).
  - intros [[] [Hin Heq]]; try discriminate. by injection Heq as ->.
Qed.

(** An outcome whose result was read off it. *)
Lemma outcome_eta {A} (o : Outcome A) r :
  res o = r → outcome r (final o) (events o) = o.
Proof. intros <-. by destruct o. Qed.

Section WholeRun.

Context (env : Env) (download_images : bool) (save_frequency : Z).

Lemma run_inv_save idx st : run_inv st (_save_metadata env idx st).
Proof.
  pose proof (_save_metadata_fields env idx st) as [Hm Hp].
  pose proof (_save_metadata_events env idx st) as Hsv.
  pose proof (λ x, save_saved _ _ x Hsv) as Hsaved.
  apply save_silent in Hsv.
  split; rewrite ?silent_appended, ?silent_fetched, ?silent_sleeps by done;
    cbn [fmap list_fmap length].
  - by rewrite app_nil_r.
  - rewrite Hp. set_solver.
  - by intros ? ?%elem_of_nil.
  - by intros ? ?%elem_of_nil.
  - constructor.
  - intros pre id post Heq. exfalso.
    eapply no_adds_order; [|exact Heq]. by apply silent_no_adds.
  - intros snapshot ->%Hsaved. by rewrite Hm.
  - destruct (is_ok _); lia.
Qed.

Lemma run_inv_process_artworks st :
  run_inv st (process_artworks env download_images save_frequency st).
Proof.
  rewrite process_artworks_unfold.
  destruct (object_ids_of env) as [object_ids|e].
  - cbv zeta.
    pose proof (run_inv_loop env download_images save_frequency object_ids 1%nat st)
      as Hloop.
    destruct (res (for_enumerate _ _ _ _)) as [[]|e] eqn:Hres.
    + apply (run_inv_seq st _ _ Hloop (run_inv_save 0%nat _)). by rewrite Hres.
    + by rewrite (outcome_eta _ _ Hres).
  - apply run_inv_nil.
Qed.

(** A run that completes has written the whole collection. *)
Lemma process_artworks_flushed st :
  let o := process_artworks env download_images save_frequency st in
  is_ok (res o) = true → output_file (final o) = Content (metadata (final o)).
Proof.
  cbv zeta. rewrite process_artworks_unfold.
  destruct (object_ids_of env) as [object_ids|e]; [|discriminate].
  cbv zeta. destruct (res (for_enumerate _ _ _ _)) as [[]|e]; [|discriminate].
  unfold _save_metadata. run_monad.
  destruct (write_output env 0%nat); run_monad; done.
Qed.

(** What [__init__] computes from a parsable output file. *)
Lemma ids_of_metadata_elem c : ∀ ids item v k,
  ids_of_metadata c = Ok ids →
  item ∈ c → item !! "objectID" = Some v → hash_key v = Some k →
  k ∈ ids.
Proof.
  induction c as [|item' c IH]; intros ids item v k Hids Hin Hv Hk.
  - by apply elem_of_nil in Hin.
  - cbn [ids_of_metadata] in Hids.
    destruct (item' !! "objectID") as [v'|] eqn:Hv'; [|discriminate].
    destruct (hash_key v') as [k'|] eqn:Hk'; [|discriminate].
    destruct (ids_of_metadata c) as [ids'|]; [|discriminate].
    injection Hids as <-.
    apply elem_of_cons in Hin as [->|Hin].
    + rewrite Hv in Hv'. injection Hv' as <-. rewrite Hk in Hk'.
      injection Hk' as <-. set_solver.
    + apply elem_of_union_r. by eapply IH.
Qed.

Lemma __init___loaded c :
  is_ok (res (__init__ env (boot (Content c)))) = true →
  metadata (final (__init__ env (boot (Content c)))) = c
  ∧ ids_of_metadata c = Ok (processed_ids (final (__init__ env (boot (Content c))))).
Proof.
  unfold __init__. run_monad.
  destruct (mkdir_images env) as [e|]; run_monad; [discriminate|].
  unfold _load_existing_metadata, read_output, boot. run_monad.
  cbn [output_file]. run_monad.
  destruct (ids_of_metadata c) as [ids|e]; run_monad; [done|discriminate].
Qed.

End WholeRun.

(** ** C3: one append per ID, and the set follows the collection *)

(** C3: in every run of [process_artworks], from any state and for any
    input list (duplicates included), at most one entry is appended for any
    ID and none for an ID that was already in the processed-ID set; the
    collection grows by exactly the appended entries, and every collection
    written to the output file lies between the initial and the final one;
    the processed-ID set grows by exactly the IDs whose entry was appended,
    and each addition to the set comes after the append of the entry for
    that ID. *)
Theorem at_most_one_append_per_id (env : Env) (download_images : bool)
    (save_frequency : Z) (st : State) :
  let o := process_artworks env download_images save_frequency st in
  NoDup (appended (events o)).*1
  ∧ (∀ object_id, object_id ∈ (appended (events o)).*1 →
       KInt object_id ∉ processed_ids st)
  ∧ metadata (final o) = metadata st ++ (appended (events o)).*2
  ∧ (∀ snapshot, EvSave snapshot ∈ events o →
       metadata st `prefix_of` snapshot ∧ snapshot `prefix_of` metadata (final o))
  ∧ processed_ids (final o)
    = list_to_set (KInt <$> (appended (events o)).*1) ∪ processed_ids st
  ∧ (∀ pre object_id post,
       events o = pre ++ EvAddProcessed object_id :: post →
       ∃ entry, EvAppend object_id entry ∈ pre).
Proof.
  cbv zeta.
  destruct (run_inv_process_artworks env download_images save_frequency st)
    as [Hm Hp Hf Ha Hn Ho Hv Hs].
  split_and!; try done.
  - intros object_id Hin. by apply Hf, Ha.
  - intros snapshot Hin. by apply Hv, elem_of_saved.
Qed.

(** The same ID three times in the input: one append. *)
Lemma at_most_one_append_per_id_witness :
  (appended (events (process_artworks
     (sample_env (Ok (DocArray [2; 2; 2])) (Ok None) None) true 10
     (boot Absent)))).*1 = [2]
  ∧ NoDup (appended (events (process_artworks
     (sample_env (Ok (DocArray [2; 2; 2])) (Ok None) None) true 10
     (boot Absent)))).*1.
Proof.
  split; [vm_compute; reflexivity|].
  apply (at_most_one_append_per_id
           (sample_env (Ok (DocArray [2; 2; 2])) (Ok None) None) true 10
           (boot Absent)).
Defined.

(** ** C4: resume skips what the store holds *)

Lemma processed_never_fetched (env : Env) (download_images : bool)
    (save_frequency : Z) (st : State) (object_id : Z) :
  KInt object_id ∈ processed_ids st →
  EvFetch object_id ∉ events (process_artworks env download_images save_frequency st).
Proof.
  intros Hin Hfetch%elem_of_fetched.
  by apply (inv_fetched_fresh _ _
              (run_inv_process_artworks env download_images save_frequency st))
    in Hfetch.
Qed.

(** C4: if the output file holds an entry whose [objectID] is [object_id]
    when the program starts, the whole run ([__init__], then
    [process_artworks]) makes no fetch for [object_id]. *)
Theorem resume_skips_stored_ids (env : Env) (download_images : bool)
    (save_frequency : Z) (c : list (gmap string value))
    (item : gmap string value) (object_id : Z) :
  item ∈ c →
  item !! "objectID" = Some (VInt object_id) →
  EvFetch object_id
  ∉ events (main env download_images save_frequency (boot (Content c))).
Proof.
  intros Hitem Hid. rewrite main_unfold. cbv zeta.
  destruct (res (__init__ env (boot (Content c)))) as [[]|e] eqn:Hres.
  - apply processed_never_fetched.
    destruct (__init___loaded env c) as [_ Hids]; [by rewrite Hres|].
    by eapply ids_of_metadata_elem.
  - cbn. by intros ?%elem_of_nil.
Qed.

Lemma resume_skips_stored_ids_witness :
  EvFetch 2
  ∉ events (main (sample_env (Ok (DocArray [1; 2; 3])) (Ok None) None) true 10
              (boot (Content [raw_record 2]))).
Proof.
  apply (resume_skips_stored_ids
           (sample_env (Ok (DocArray [1; 2; 3])) (Ok None) None) true 10
           [raw_record 2] (raw_record 2) 2).
  - constructor.
  - reflexivity.
Defined.

(** ** C7: the rate-limit wait *)

(** C7, counterexample: the store holds ID 7 and the input list is [[7]].
    The one iteration of the loop completes without any wait: the skip of an
    already-processed ID goes straight to the next ID. *)
Lemma skipped_id_is_not_waited_for :
  res (main (sample_env (Ok (DocArray [7])) (Ok None) None) true 10
         (boot (Content [raw_record 7]))) = Ok tt
  ∧ length [7] = 1%nat
  ∧ sleeps (events (main (sample_env (Ok (DocArray [7])) (Ok None) None) true 10
                      (boot (Content [raw_record 7])))) = 0%nat
  ∧ events (process_one (sample_env (Ok (DocArray [7])) (Ok None) None) true 10
              1 7
              (final (__init__ (sample_env (Ok (DocArray [7])) (Ok None) None)
                        (boot (Content [raw_record 7]))))) = [].
Proof. split_and!; vm_compute; reflexivity. Qed.

(** C7, amended: an iteration that completes waits exactly once when its
    ID is not in the processed-ID set (whatever the outcome: fetch failed,
    not eligible, or accepted), and does not wait at all when the ID is
    skipped because it is already in the set. *)
Theorem rate_limit_wait_per_fetched_id (env : Env) (download_images : bool)
    (save_frequency : Z) (idx : nat) (object_id : Z) (st : State) :
  is_ok (res (process_one env download_images save_frequency idx object_id st))
  = true →
  sleeps (events (process_one env download_images save_frequency idx object_id st))
  = if bool_decide (KInt object_id ∈ processed_ids st) then 0%nat else 1%nat.
Proof.
  destruct (process_one_kind env download_images save_frequency idx object_id st)
    as [Hin|e Hin|Hin|e dl Hin Hdl|entry dl r st' sv Hin Hdl Hsv Hm Hp];
    cbn [res outcome events is_ok]; intros Hok; try discriminate.
  - by rewrite bool_decide_eq_true_2.
  - by rewrite bool_decide_eq_false_2.
  - rewrite bool_decide_eq_false_2 by done. rewrite Hok.
    apply download_silent in Hdl. apply save_silent in Hsv.
    change (EvFetch object_id :: dl ++ ?x) with ([EvFetch object_id] ++ dl ++ x).
    change (EvAppend object_id entry :: EvAddProcessed object_id :: sv ++ [EvSleep])
      with ([EvAppend object_id entry; EvAddProcessed object_id] ++ sv ++ [EvSleep]).
    by rewrite !sleeps_app, (silent_sleeps dl), (silent_sleeps sv).
Qed.

Lemma rate_limit_wait_per_fetched_id_witness :
  sleeps (events (process_one (sample_env (Ok (DocArray [7])) (Raise HTTPError) None)
                    true 10 1 7 (boot Absent)))
  = 1%nat.
Proof.
  apply (rate_limit_wait_per_fetched_id
           (sample_env (Ok (DocArray [7])) (Raise HTTPError) None)
           true 10 1%nat 7 (boot Absent)).
  vm_compute. reflexivity.
Defined.

(** ** The run around one iteration *)

Section AroundOneIteration.

Context (env : Env) (download_images : bool) (save_frequency : Z).

Local Abbreviation body := (process_one env download_images save_frequency).

(** The run when the input list is [pre ++ object_id :: post] and the
    iterations on [pre] complete: the events of [pre], then those of the
    iteration on [object_id], then those of the rest of the run, which
    starts from the state that iteration left. If the iteration raises, the
    run ends there with its exception. *)
Lemma process_artworks_split pre object_id post st :
  let o_pre := for_enumerate body 1%nat pre st in
  let o_one := body (1 + length pre)%nat object_id (final o_pre) in
  object_ids_of env = Ok (pre ++ object_id :: post) →
  is_ok (res o_pre) = true →
  ∃ o_rest,
    run_inv (final o_one) o_rest
    ∧ process_artworks env download_images save_frequency st
      = outcome (res o_rest) (final o_rest)
          (events o_pre ++ events o_one ++ events o_rest)
    ∧ (is_ok (res o_rest) = true →
       output_file (final o_rest) = Content (metadata (final o_rest)))
    ∧ (∀ e, res o_one = Raise e → o_rest = outcome (Raise e) (final o_one) []).
Proof.
  intros o_pre o_one Hids Hok.
  rewrite process_artworks_unfold, Hids. cbv zeta.
  rewrite (for_enumerate_split env download_images save_frequency
             pre object_id post 1%nat st Hok).
  fold o_pre. fold o_one. cbv zeta.
  destruct (res o_one) as [[]|e] eqn:Hone.
  - set (o_post := for_enumerate body (S (1 + length pre)) post (final o_one)).
    pose proof (run_inv_loop env download_images save_frequency post
                  (S (1 + length pre)) (final o_one)) as Hpost.
    fold o_post in Hpost. cbn [res final events outcome].
    destruct (res o_post) as [[]|e] eqn:Hres.
    + exists (outcome (res (_save_metadata env 0%nat (final o_post)))
                (final (_save_metadata env 0%nat (final o_post)))
                (events o_post ++ events (_save_metadata env 0%nat (final o_post)))).
      split_and!.
      * apply (run_inv_seq _ _ _ Hpost (run_inv_save env 0%nat _)).
        by rewrite Hres.
      * cbn [res final events outcome]. by rewrite <- !app_assoc.
      * cbn [res final events outcome]. unfold _save_metadata. run_monad.
        destruct (write_output env 0%nat); run_monad; done.
      * discriminate.
    + exists o_post. split_and!.
      * done.
      * by rewrite Hres.
      * by rewrite Hres.
      * discriminate.
  - exists (outcome (Raise e) (final o_one) []). split_and!.
    + apply run_inv_nil.
    + cbn [res final events outcome]. by rewrite app_nil_r.
    + discriminate.
    + by intros ? [= ->].
Qed.

End AroundOneIteration.

(** ** C1: a record whose download fails *)

(** C1, counterexample: the image request for ID 2 fails with an HTTP
    error, so [_download_image] returns [None]. The record is appended all
    the same, with [localImage] set to [None], and the final save writes it
    to the output file. *)
Lemma failed_download_is_persisted :
  res (_download_image (sample_env (Ok (DocArray [2])) (Raise HTTPError) None)
         1 (_get_optimized_image_url sample_url) 2 (boot Absent))
  = Ok None
  ∧ events (main (sample_env (Ok (DocArray [2])) (Raise HTTPError) None) true 10
              (boot Absent))
    = [ EvFetch 2; EvDownload (_get_optimized_image_url sample_url) 2;
        EvAppend 2 (_extract_metadata (raw_record 2) None); EvAddProcessed 2;
        EvSleep; EvSave [_extract_metadata (raw_record 2) None] ]
  ∧ metadata (final (main (sample_env (Ok (DocArray [2])) (Raise HTTPError) None)
                       true 10 (boot Absent)))
    = [_extract_metadata (raw_record 2) None]
  ∧ output_file (final (main (sample_env (Ok (DocArray [2])) (Raise HTTPError) None)
                          true 10 (boot Absent)))
    = Content [_extract_metadata (raw_record 2) None]
  ∧ _extract_metadata (raw_record 2) None !! "objectID" = Some (VInt 2)
  ∧ _extract_metadata (raw_record 2) None !! "localImage" = Some VNone.
Proof. split_and!; vm_compute; reflexivity. Qed.

(** C1, amended: take a run with downloads enabled whose input list is
    [pre ++ object_id :: post], in which the iterations on [pre] complete,
    and in which the iteration on [object_id] fetches an eligible record and
    its download fails ([_download_image] returns [None]). Then the record is
    kept: its entry, with [localImage] set to [None], is appended to the
    collection and is still there when the run ends, the ID is in the
    processed-ID set, and if the run completes the output file holds the
    whole collection, this entry included. *)
Theorem failed_download_keeps_record (env : Env) (save_frequency : Z)
    (pre : list Z) (object_id : Z) (post : list Z) (st : State)
    (d : gmap string value) (url : string) :
  let o_pre := for_enumerate (process_one env true save_frequency) 1%nat pre st in
  let idx := (1 + length pre)%nat in
  let o := process_artworks env true save_frequency st in
  let entry := _extract_metadata d None in
  object_ids_of env = Ok (pre ++ object_id :: post) →
  is_ok (res o_pre) = true →
  KInt object_id ∉ processed_ids (final o_pre) →
  get_object env idx object_id = Ok d →
  eligible d = true →
  d !! "primaryImage" = Some (VStr url) →
  res (_download_image env idx (_get_optimized_image_url url) object_id (final o_pre))
  = Ok None →
  entry !! "localImage" = Some VNone
  ∧ EvAppend object_id entry ∈ events o
  ∧ entry ∈ metadata (final o)
  ∧ KInt object_id ∈ processed_ids (final o)
  ∧ (is_ok (res o) = true → output_file (final o) = Content (metadata (final o))).
Proof.
  intros o_pre idx o entry Hids Hok Hfresh Hget Hel Hurl Hfail.
  destruct (process_artworks_split env true save_frequency pre object_id post st
              Hids Hok) as (o_rest & Hinv & Hrun & Hflush & _).
  fold o_pre idx in Hinv, Hrun. fold o in Hrun.
  pose proof (process_one_eligible env true save_frequency idx object_id
                (final o_pre) d Hfresh Hget Hel) as Hone.
  cbv zeta in Hone. unfold download_stage in Hone at 1. rewrite Hurl in Hone.
  rewrite Hfail in Hone. fold entry in Hone.
  pose proof (maybe_save_fields env save_frequency idx
                (accepted (final o_pre) object_id entry)) as [Hm Hp].
  cbv zeta in Hm, Hp. rewrite Hone in Hinv, Hrun.
  cbn [res final events outcome] in Hinv, Hrun.
  destruct Hinv as [Hm' Hp' _ _ _ _ _ _].
  rewrite Hrun. cbn [res final events outcome]. split_and!.
  - reflexivity.
  - apply elem_of_app. right. apply elem_of_app. left.
    apply elem_of_cons. right. apply elem_of_app. right. constructor.
  - rewrite Hm', Hm. cbn [accepted metadata].
    apply elem_of_app. left. apply elem_of_app. right. constructor.
  - rewrite Hp', Hp. cbn [accepted processed_ids]. set_solver.
  - exact Hflush.
Qed.

Lemma failed_download_keeps_record_witness :
  EvAppend 2 (_extract_metadata (raw_record 2) None)
  ∈ events (process_artworks
              (sample_env (Ok (DocArray [1; 2; 3])) (Raise Timeout) None)
              true 10 (boot Absent)).
Proof.
  apply (failed_download_keeps_record
           (sample_env (Ok (DocArray [1; 2; 3])) (Raise Timeout) None) 10
           [1] 2 [3] (boot Absent) (raw_record 2) sample_url).
  - reflexivity.
  - vm_compute. reflexivity.
  - refine (bool_decide_eq_false_1 _ _). vm_compute. reflexivity.
  - reflexivity.
  - vm_compute. reflexivity.
  - vm_compute. reflexivity.
  - vm_compute. reflexivity.
Defined.

(** ** C10: a checkpoint interval of zero *)

Section ZeroInterval.

Context (env : Env) (download_images : bool).

(** With [save_frequency = 0] an iteration never writes the output file,
    and it completes only if it appends nothing. *)
Lemma process_one_zero idx object_id st :
  let o := process_one env download_images 0 idx object_id st in
  saved (events o) = []
  ∧ output_file (final o) = output_file st
  ∧ (is_ok (res o) = true → appended (events o) = []).
Proof.
  cbv zeta.
  destruct (decide (KInt object_id ∈ processed_ids st)) as [Hin|Hin].
  { by rewrite process_one_skip. }
  destruct (get_object env idx object_id) as [d|e] eqn:Hget.
  - destruct (eligible d) eqn:Hel.
    + rewrite (process_one_eligible _ _ _ _ _ _ d Hin Hget Hel). cbv zeta.
      pose proof (download_stage_events env download_images idx object_id d st)
        as Hdl.
      apply download_saved in Hdl.
      destruct (res (download_stage env download_images idx object_id d st))
        as [local|e]; cbn [res final events outcome].
      * rewrite maybe_save_zero by done. cbn [res final events outcome is_ok].
        change (EvFetch object_id :: ?x) with ([EvFetch object_id] ++ x).
        rewrite !saved_app, Hdl. done.
      * change (EvFetch object_id :: ?x) with ([EvFetch object_id] ++ x).
        rewrite !saved_app, Hdl. done.
    + by rewrite (process_one_ineligible _ _ _ _ _ _ d Hin Hget Hel).
  - destruct (is_RequestException e) eqn:Hreq.
    + by rewrite (process_one_fetch_failed _ _ _ _ _ _ e Hin Hget Hreq).
    + by rewrite (process_one_fetch_raises _ _ _ _ _ _ e Hin Hget Hreq).
Qed.

Lemma for_enumerate_zero object_ids : ∀ idx st,
  let o := for_enumerate (process_one env download_images 0) idx object_ids st in
  saved (events o) = []
  ∧ output_file (final o) = output_file st
  ∧ (is_ok (res o) = true → appended (events o) = []).
Proof.
  induction object_ids as [|object_id rest IH]; intros idx st; cbv zeta.
  - done.
  - cbn [for_enumerate]. run_monad.
    destruct (process_one_zero idx object_id st) as (Hs1 & Hf1 & Ha1).
    destruct (res (process_one _ _ _ idx object_id st)) as [[]|e];
      cbn [res final events]; [|done].
    destruct (IH (S idx) (final (process_one env download_images 0 idx object_id st)))
      as (Hs2 & Hf2 & Ha2).
    rewrite saved_app, appended_app, Hs1, Hs2, Hf2, Hf1.
    split_and!; try done. intros Hok. by rewrite Ha1, Ha2.
Qed.

End ZeroInterval.

(** C10: take a run with [save_frequency = 0] whose input list is
    [pre ++ object_id :: post], in which the iterations on [pre] complete
    and the iteration on [object_id] accepts a record (the ID is not yet
    processed, the record is fetched and eligible, and the download stage
    does not raise). Nothing rejects the zero before the loop: the run
    fetches and appends that record, the first one it accepts, and then
    raises [ZeroDivisionError] at the checkpoint decision, without having
    written the output file. *)
Theorem zero_save_frequency_raises (env : Env) (download_images : bool)
    (pre : list Z) (object_id : Z) (post : list Z) (st : State)
    (d : gmap string value) :
  let o_pre := for_enumerate (process_one env download_images 0) 1%nat pre st in
  let idx := (1 + length pre)%nat in
  let o := process_artworks env download_images 0 st in
  object_ids_of env = Ok (pre ++ object_id :: post) →
  is_ok (res o_pre) = true →
  KInt object_id ∉ processed_ids (final o_pre) →
  get_object env idx object_id = Ok d →
  eligible d = true →
  is_ok (res (download_stage env download_images idx object_id d (final o_pre)))
  = true →
  res o = Raise ZeroDivisionError
  ∧ appended (events o_pre) = []
  ∧ (∃ entry,
       metadata (final o) = metadata st ++ [entry]
       ∧ EvAppend object_id entry ∈ events o)
  ∧ saved (events o) = []
  ∧ output_file (final o) = output_file st.
Proof.
  intros o_pre idx o Hids Hok Hfresh Hget Hel Hdl.
  destruct (process_artworks_split env download_images 0 pre object_id post st
              Hids Hok) as (o_rest & _ & Hrun & _ & Hraise).
  fold o_pre idx in Hrun, Hraise. fold o in Hrun.
  destruct (for_enumerate_zero env download_images pre 1%nat st)
    as (Hs_pre & Hf_pre & Ha_pre).
  fold o_pre in Hs_pre, Hf_pre, Ha_pre. specialize (Ha_pre Hok).
  pose proof (inv_metadata _ _ (run_inv_loop env download_images 0 pre 1%nat st))
    as Hm_pre.
  fold o_pre in Hm_pre. rewrite Ha_pre in Hm_pre. cbn in Hm_pre.
  rewrite app_nil_r in Hm_pre.
  pose proof (process_one_eligible env download_images 0 idx object_id
                (final o_pre) d Hfresh Hget Hel) as Hone.
  cbv zeta in Hone.
  pose proof (download_stage_events env download_images idx object_id d
                (final o_pre)) as Hdv. apply download_saved in Hdv.
  destruct (res (download_stage env download_images idx object_id d (final o_pre)))
    as [local|e]; [|discriminate].
  rewrite maybe_save_zero in Hone by done.
  cbn [res final events outcome is_ok] in Hone.
  rewrite Hone in Hrun, Hraise. cbn [res final events outcome] in Hrun, Hraise.
  rewrite (Hraise ZeroDivisionError eq_refl) in Hrun.
  cbn [res final events outcome] in Hrun. rewrite Hrun.
  cbn [res final events outcome accepted metadata output_file].
  split_and!.
  - reflexivity.
  - exact Ha_pre.
  - exists (_extract_metadata d local). split.
    + by rewrite Hm_pre.
    + apply elem_of_app. right. apply elem_of_app. left.
      apply elem_of_cons. right. apply elem_of_app. right. constructor.
  - change (EvFetch object_id :: ?x) with ([EvFetch object_id] ++ x).
    rewrite !saved_app, Hs_pre, Hdv. reflexivity.
  - exact Hf_pre.
Qed.

Lemma zero_save_frequency_raises_witness :
  res (process_artworks (sample_env (Ok (DocArray [1; 2; 3])) (Ok None) None)
         true 0 (boot Absent))
  = Raise ZeroDivisionError.
Proof.
  apply (zero_save_frequency_raises
           (sample_env (Ok (DocArray [1; 2; 3])) (Ok None) None) true
           [] 1 [2; 3] (boot Absent) (raw_record 1)).
  - reflexivity.
  - reflexivity.
  - refine (bool_decide_eq_false_1 _ _). vm_compute. reflexivity.
  - reflexivity.
  - vm_compute. reflexivity.
  - vm_compute. reflexivity.
Defined.

(** ** Consequences for whole runs *)

Section Consequences.

Context (env : Env) (download_images : bool) (save_frequency : Z).

(** An appended entry is the projection of the record fetched for the ID of
    its iteration. *)
Lemma process_one_appended idx object_id st id' entry :
  (id', entry)
  ∈ appended (events (process_one env download_images save_frequency idx object_id st)) →
  id' = object_id
  ∧ ∃ d local, get_object env idx object_id = Ok d
               ∧ entry = _extract_metadata d local.
Proof.
  destruct (decide (KInt object_id ∈ processed_ids st)) as [Hin|Hin].
  { rewrite process_one_skip by done. by intros ?%elem_of_nil. }
  destruct (get_object env idx object_id) as [d|e] eqn:Hget.
  - destruct (eligible d) eqn:Hel.
    + rewrite (process_one_eligible _ _ _ _ _ _ d Hin Hget Hel). cbv zeta.
      pose proof (download_stage_events env download_images idx object_id d st)
        as Hdl.
      apply download_silent, silent_appended in Hdl.
      destruct (res (download_stage env download_images idx object_id d st))
        as [local|e]; cbn [res final events outcome].
      * pose proof (maybe_save_events env save_frequency idx
                      (accepted st object_id (_extract_metadata d local))) as Hsv.
        apply save_silent, silent_appended in Hsv.
        change (EvFetch object_id :: ?x) with ([EvFetch object_id] ++ x).
        change (EvAppend object_id ?y :: EvAddProcessed object_id :: ?x)
          with ([EvAppend object_id y; EvAddProcessed object_id] ++ x).
        rewrite !appended_app, Hdl, Hsv. cbn [app].
        assert (appended (if is_ok
                   (res (maybe_save env save_frequency idx
                           (accepted st object_id (_extract_metadata d local))))
                 then [EvSleep] else []) = []) as -> by (by destruct (is_ok _)).
        cbn. intros [= -> ->]%list_elem_of_singleton. eauto.
      * change (EvFetch object_id :: ?x) with ([EvFetch object_id] ++ x).
        rewrite appended_app, Hdl. by intros ?%elem_of_nil.
    + rewrite (process_one_ineligible _ _ _ _ _ _ d Hin Hget Hel).
      by intros ?%elem_of_nil.
  - destruct (is_RequestException e) eqn:Hreq.
    + rewrite (process_one_fetch_failed _ _ _ _ _ _ e Hin Hget Hreq).
      by intros ?%elem_of_nil.
    + rewrite (process_one_fetch_raises _ _ _ _ _ _ e Hin Hget Hreq).
      by intros ?%elem_of_nil.
Qed.

Lemma for_enumerate_appended object_ids : ∀ idx st id' entry,
  (id', entry)
  ∈ appended (events (for_enumerate (process_one env download_images save_frequency)
                        idx object_ids st)) →
  ∃ idx' d local, get_object env idx' id' = Ok d
                  ∧ entry = _extract_metadata d local.
Proof.
  induction object_ids as [|object_id rest IH]; intros idx st id' entry.
  - by intros ?%elem_of_nil.
  - cbn [for_enumerate]. run_monad.
    destruct (res (process_one _ _ _ idx object_id st)) as [[]|e];
      cbn [res final events].
    + rewrite appended_app. intros [Hin|Hin]%elem_of_app.
      * apply process_one_appended in Hin as (-> & d & local & Hget & ->). eauto.
      * by apply IH in Hin.
    + intros Hin.
      apply process_one_appended in Hin as (-> & d & local & Hget & ->). eauto.
Qed.

(** When the API answers a request for an ID with the record of that ID,
    every entry appended in a run carries the ID it was appended for, so the
    appended entries have pairwise distinct [objectID]s. *)
Lemma appended_entries_carry_their_id st :
  (∀ idx object_id d,
     get_object env idx object_id = Ok d → d !! "objectID" = Some (VInt object_id)) →
  ∀ object_id entry,
    EvAppend object_id entry
    ∈ events (process_artworks env download_images save_frequency st) →
    entry !! "objectID" = Some (VInt object_id).
Proof.
  intros Hapi object_id entry Hin%elem_of_appended.
  rewrite process_artworks_unfold in Hin.
  destruct (object_ids_of env) as [object_ids|e];
    [|by apply elem_of_nil in Hin].
  cbv zeta in Hin.
  assert ((object_id, entry)
          ∈ appended (events (for_enumerate
                                (process_one env download_images save_frequency)
                                1%nat object_ids st))) as Hloop.
  { destruct (res (for_enumerate _ _ _ _)) as [[]|e]; [|exact Hin].
    cbn [events outcome] in Hin. rewrite appended_app in Hin.
    apply elem_of_app in Hin as [Hin|Hin]; [exact Hin|].
    pose proof (_save_metadata_events env 0%nat
                  (final (for_enumerate
                            (process_one env download_images save_frequency)
                            1%nat object_ids st))) as Hsv.
    apply save_silent, silent_appended in Hsv. rewrite Hsv in Hin.
    by apply elem_of_nil in Hin. }
  apply for_enumerate_appended in Hloop as (idx & d & local & Hget & ->).
  apply Hapi in Hget. unfold _extract_metadata.
  change (list_to_map ?l !! "objectID")
    with (Some (dict_get d "objectID" VNone)).
  unfold dict_get. by rewrite Hget.
Qed.

(** A run of the loop that completes has waited once per fetched ID. *)
Lemma waits_match_fetches object_ids idx st :
  let o := for_enumerate (process_one env download_images save_frequency)
             idx object_ids st in
  is_ok (res o) = true → sleeps (events o) = length (fetched (events o)).
Proof.
  cbv zeta. intros Hok.
  pose proof (inv_sleeps _ _
                (run_inv_loop env download_images save_frequency object_ids idx st))
    as Hs.
  rewrite Hok in Hs. lia.
Qed.

(** An exception that leaves an iteration ends the run. *)
Lemma iteration_exception_ends_run pre object_id post st e :
  let o_pre := for_enumerate (process_one env download_images save_frequency)
                 1%nat pre st in
  object_ids_of env = Ok (pre ++ object_id :: post) →
  is_ok (res o_pre) = true →
  res (process_one env download_images save_frequency (1 + length pre)%nat
         object_id (final o_pre)) = Raise e →
  res (process_artworks env download_images save_frequency st) = Raise e.
Proof.
  intros o_pre Hids Hok Hraise.
  destruct (process_artworks_split env download_images save_frequency
              pre object_id post st Hids Hok) as (o_rest & _ & Hrun & _ & Hrest).
  rewrite Hrun, (Hrest e Hraise). reflexivity.
Qed.

End Consequences.

(** * Further properties of the scraper *)

(** ** Asset file names *)

Lemma length_append s t :
  String.length (s +:+ t) = (String.length s + String.length t)%nat.
Proof.
  induction s as [|c s IH]; [reflexivity|].
  change (String c s +:+ t) with (String c (s +:+ t)). cbn [String.length].
  by rewrite IH.
Qed.

Lemma append_inj_same_length s1 : ∀ s2 t1 t2,
  String.length t1 = String.length t2 →
  s1 +:+ t1 = s2 +:+ t2 → s1 = s2.
Proof.
  induction s1 as [|a s1 IH]; intros [|b s2] t1 t2 Hlen Heq.
  - reflexivity.
  - change ("" +:+ t1) with t1 in Heq. subst t1.
    rewrite length_append in Hlen. cbn [String.length] in Hlen. lia.
  - change ("" +:+ t2) with t2 in Heq. subst t2.
    rewrite length_append in Hlen. cbn [String.length] in Hlen. lia.
  - change (String a (s1 +:+ t1) = String b (s2 +:+ t2)) in Heq.
    injection Heq as -> Heq. f_equal. by eapply IH.
Qed.

Lemma choose_ext_cases content_type image_url :
  choose_ext content_type image_url = ".jpg"
  ∨ choose_ext content_type image_url = ".png".
Proof.
  unfold choose_ext. repeat case_match; auto.
Qed.

(** What a successful download did. *)
Lemma _download_image_success env idx image_url object_id st filename :
  res (_download_image env idx image_url object_id st) = Ok (Some filename) →
  (filename = pretty object_id +:+ ".jpg" ∨ filename = pretty object_id +:+ ".png")
  ∧ events (_download_image env idx image_url object_id st)
    = [EvDownload image_url object_id; EvOpenAsset filename].
Proof.
  unfold _download_image. destruct (String.eqb image_url ""); [discriminate|].
  run_monad. destruct (get_image env idx image_url) as [header|e]; run_monad.
  - destruct (open_asset env idx _) as [e|]; run_monad.
    + destruct (is_RequestException e); discriminate.
    + destruct (stream_asset env idx) as [e|]; run_monad.
      * destruct (is_RequestException e); discriminate.
      * intros [= <-]. split; [|reflexivity].
        destruct (choose_ext_cases (default "" header) image_url) as [-> | ->];
          auto.
  - destruct (is_RequestException e); discriminate.
Qed.

(** X1: a download that succeeds returns the name of the file it wrote, which
    is the decimal ID followed by [.jpg] or [.png]; two successful downloads
    (in any two environments, of any two URLs) that return the same name
    are downloads for the same ID. *)
Theorem asset_filename_identifies_id (env1 env2 : Env) (idx1 idx2 : nat)
    (url1 url2 : string) (id1 id2 : Z) (st1 st2 : State) (f1 f2 : string) :
  res (_download_image env1 idx1 url1 id1 st1) = Ok (Some f1) →
  res (_download_image env2 idx2 url2 id2 st2) = Ok (Some f2) →
  (f1 = pretty id1 +:+ ".jpg" ∨ f1 = pretty id1 +:+ ".png")
  ∧ EvOpenAsset f1 ∈ events (_download_image env1 idx1 url1 id1 st1)
  ∧ (f1 = f2 → id1 = id2).
Proof.
  intros H1 H2. apply _download_image_success in H1 as [Hf1 He1].
  apply _download_image_success in H2 as [Hf2 _].
  split_and!; [done|rewrite He1; set_solver|].
  intros Heq. apply (inj (pretty : Z → string)).
  destruct Hf1 as [-> | ->], Hf2 as [-> | ->];
    by eapply append_inj_same_length; [|exact Heq].
Qed.

Lemma asset_filename_identifies_id_witness :
  EvOpenAsset "436535.jpg"
  ∈ events (_download_image (sample_env (Ok (DocArray [436535])) (Ok (Some "image/jpeg")) None)
              1 sample_url 436535 (boot Absent)).
Proof.
  apply (asset_filename_identifies_id
           (sample_env (Ok (DocArray [436535])) (Ok (Some "image/jpeg")) None)
           (sample_env (Ok (DocArray [436535])) (Ok (Some "image/jpeg")) None)
           1 1 sample_url sample_url 436535 436535 (boot Absent) (boot Absent)
           "436535.jpg" "436535.jpg"); vm_compute; reflexivity.
Defined.

(** ** What an appended entry is *)

(** The cases of one iteration, with the outcome rewritten in each. *)
Ltac process_one_cases env di sf idx id st d Hin Hget Hel :=
  let e := fresh "e" in
  let Hreq := fresh "Hreq" in
  destruct (decide (KInt id ∈ processed_ids st)) as [Hin|Hin];
  [ rewrite (process_one_skip env di sf idx id st Hin)
  | destruct (get_object env idx id) as [d|e] eqn:Hget;
    [ destruct (eligible d) eqn:Hel;
      [ rewrite (process_one_eligible env di sf idx id st d Hin Hget Hel)
      | rewrite (process_one_ineligible env di sf idx id st d Hin Hget Hel) ]
    | destruct (is_RequestException e) eqn:Hreq;
      [ rewrite (process_one_fetch_failed env di sf idx id st e Hin Hget Hreq)
      | rewrite (process_one_fetch_raises env di sf idx id st e Hin Hget Hreq) ] ] ].

Lemma _download_image_state_indep env idx image_url object_id st st' :
  res (_download_image env idx image_url object_id st)
  = res (_download_image env idx image_url object_id st')
  ∧ events (_download_image env idx image_url object_id st)
    = events (_download_image env idx image_url object_id st').
Proof.
  unfold _download_image. destruct (String.eqb image_url ""); [done|].
  run_monad. destruct (get_image env idx image_url) as [header|e]; run_monad.
  - destruct (open_asset env idx _) as [e|]; run_monad.
    + by destruct (is_RequestException e).
    + destruct (stream_asset env idx) as [e|]; run_monad; [|done].
      by destruct (is_RequestException e).
  - by destruct (is_RequestException e).
Qed.

Lemma download_stage_state_indep env di idx object_id d st st' :
  res (download_stage env di idx object_id d st)
  = res (download_stage env di idx object_id d st')
  ∧ events (download_stage env di idx object_id d st)
    = events (download_stage env di idx object_id d st').
Proof.
  unfold download_stage. destruct di; [|done].
  destruct (d !! "primaryImage") as [[]|]; try done.
  apply _download_image_state_indep.
Qed.

(** The record behind an appended entry: fetched for the ID of the
    iteration, eligible, and projected with the result of the download
    stage, whose events are part of the trace. *)
Definition accepted_from (env : Env) (di : bool) (evs : list event)
    (object_id : Z) (entry : gmap string value) : Prop :=
  ∃ idx d local,
    get_object env idx object_id = Ok d
    ∧ eligible d = true
    ∧ entry = _extract_metadata d local
    ∧ (∀ st, res (download_stage env di idx object_id d st) = Ok local)
    ∧ (∀ st e, e ∈ events (download_stage env di idx object_id d st) → e ∈ evs).

Lemma accepted_from_mono env di evs evs' object_id entry :
  (∀ e, e ∈ evs → e ∈ evs') →
  accepted_from env di evs object_id entry →
  accepted_from env di evs' object_id entry.
Proof.
  intros Hsub (idx & d & local & Hget & Hel & He & Hres & Hev).
  exists idx, d, local. split_and!; try done. intros st e Hin. eauto.
Qed.

Section Accepted.

Context (env : Env) (download_images : bool) (save_frequency : Z).

Lemma process_one_accepted idx object_id st id' entry :
  (id', entry)
  ∈ appended (events (process_one env download_images save_frequency idx object_id st)) →
  id' = object_id
  ∧ accepted_from env download_images
      (events (process_one env download_images save_frequency idx object_id st))
      object_id entry.
Proof.
  process_one_cases env download_images save_frequency idx object_id st
    d Hin Hget Hel; try (by intros ?%elem_of_nil).
  cbv zeta.
  pose proof (download_stage_events env download_images idx object_id d st) as Hdl.
  apply download_silent, silent_appended in Hdl.
  destruct (res (download_stage env download_images idx object_id d st))
    as [local|e] eqn:Hres; cbn [res final events outcome].
  - pose proof (maybe_save_events env save_frequency idx
                  (accepted st object_id (_extract_metadata d local))) as Hsv.
    apply save_silent, silent_appended in Hsv.
    set (entry0 := _extract_metadata d local) in *.
    set (os := maybe_save env save_frequency idx (accepted st object_id entry0))
      in *.
    assert (appended (EvFetch object_id
                      :: events (download_stage env download_images idx object_id d st)
                      ++ EvAppend object_id entry0 :: EvAddProcessed object_id
                      :: events os ++ (if is_ok (res os) then [EvSleep] else []))
            = [(object_id, entry0)]) as ->.
    { change (EvFetch object_id :: ?x) with ([EvFetch object_id] ++ x).
      change (EvAppend object_id ?y :: EvAddProcessed object_id :: ?x)
        with ([EvAppend object_id y; EvAddProcessed object_id] ++ x).
      rewrite !appended_app, Hdl, Hsv. by destruct (is_ok _). }
    intros [= -> ->]%list_elem_of_singleton. split; [done|].
    exists idx, d, local. split_and!; try done.
    + intros st'. by rewrite <- (proj1 (download_stage_state_indep env
                                   download_images idx object_id d st st')).
    + intros st' e.
      rewrite <- (proj2 (download_stage_state_indep env download_images idx
                           object_id d st st')).
      intros Hin'. apply elem_of_cons. right. apply elem_of_app. by left.
  - change (EvFetch object_id :: ?x) with ([EvFetch object_id] ++ x).
    rewrite appended_app, Hdl. by intros ?%elem_of_nil.
Qed.

Lemma for_enumerate_accepted object_ids : ∀ idx st id' entry,
  (id', entry)
  ∈ appended (events (for_enumerate (process_one env download_images save_frequency)
                        idx object_ids st)) →
  accepted_from env download_images
    (events (for_enumerate (process_one env download_images save_frequency)
               idx object_ids st))
    id' entry.
Proof.
  induction object_ids as [|object_id rest IH]; intros idx st id' entry.
  - by intros ?%elem_of_nil.
  - cbn [for_enumerate]. run_monad.
    destruct (res (process_one _ _ _ idx object_id st)) as [[]|e];
      cbn [res final events].
    + rewrite appended_app. intros [Hin|Hin]%elem_of_app.
      * apply process_one_accepted in Hin as [-> Hacc].
        eapply accepted_from_mono; [|exact Hacc].
        intros e He. apply elem_of_app. by left.
      * apply IH in Hin. eapply accepted_from_mono; [|exact Hin].
        intros e He. apply elem_of_app. by right.
    + intros Hin. by apply process_one_accepted in Hin as [-> Hacc].
Qed.

Lemma process_artworks_accepted st object_id entry :
  EvAppend object_id entry
  ∈ events (process_artworks env download_images save_frequency st) →
  accepted_from env download_images
    (events (process_artworks env download_images save_frequency st))
    object_id entry.
Proof.
  intros Hin%elem_of_appended. revert Hin.
  rewrite process_artworks_unfold.
  destruct (object_ids_of env) as [object_ids|e];
    [|by intros ?%elem_of_nil].
  cbv zeta.
  pose proof (for_enumerate_accepted object_ids 1%nat st object_id entry) as Hloop.
  destruct (res (for_enumerate _ _ _ _)) as [[]|e]; cbn [events outcome].
  - rewrite appended_app. intros [Hin|Hin]%elem_of_app.
    + eapply accepted_from_mono; [|by apply Hloop].
      intros e He. apply elem_of_app. by left.
    + pose proof (_save_metadata_events env 0%nat
                    (final (for_enumerate
                              (process_one env download_images save_frequency)
                              1%nat object_ids st))) as Hsv.
      apply save_silent, silent_appended in Hsv. rewrite Hsv in Hin.
      by apply elem_of_nil in Hin.
  - exact Hloop.
Qed.

End Accepted.

Lemma extract_metadata_local d local :
  _extract_metadata d local !! "localImage" = Some (opt_str local).
Proof. reflexivity. Qed.

Lemma extract_metadata_source d local k dflt :
  _extract_metadata d local !! k = Some (dict_get d k dflt) →
  truthy (dict_get d k VNone) = true →
  ∃ v, d !! k = Some v ∧ _extract_metadata d local !! k = Some v ∧ truthy v = true.
Proof.
  intros Hk Ht. unfold dict_get in *.
  destruct (d !! k) as [v|]; [|discriminate]. eauto.
Qed.

(** X2: an entry appended in a run either has no local image, or downloads
    were enabled and its [localImage] is the decimal ID of the entry followed
    by [.jpg] or [.png], the name of a file that this run opened for
    writing. *)
Theorem local_image_names_written_file (env : Env) (download_images : bool)
    (save_frequency : Z) (st : State) (object_id : Z)
    (entry : gmap string value) :
  EvAppend object_id entry
  ∈ events (process_artworks env download_images save_frequency st) →
  entry !! "localImage" = Some VNone
  ∨ ∃ filename,
      entry !! "localImage" = Some (VStr filename)
      ∧ download_images = true
      ∧ (filename = pretty object_id +:+ ".jpg"
         ∨ filename = pretty object_id +:+ ".png")
      ∧ EvOpenAsset filename
        ∈ events (process_artworks env download_images save_frequency st).
Proof.
  intros Hin.
  apply process_artworks_accepted in Hin
    as (idx & d & local & Hget & Hel & -> & Hres & Hev).
  rewrite extract_metadata_local. destruct local as [filename|]; [|by left].
  right. exists filename. specialize (Hres st). specialize (Hev st).
  unfold download_stage in Hres, Hev.
  destruct download_images; [|discriminate].
  destruct (d !! "primaryImage") as [[| | |url| |]|]; try discriminate.
  apply _download_image_success in Hres as [Hname Hevs].
  split_and!; try done. apply Hev. rewrite Hevs. set_solver.
Qed.

Lemma local_image_names_written_file_witness :
  _extract_metadata (raw_record 2) (Some "2.jpg") !! "localImage" = Some VNone
  ∨ ∃ filename,
      _extract_metadata (raw_record 2) (Some "2.jpg") !! "localImage"
      = Some (VStr filename)
      ∧ true = true
      ∧ (filename = pretty 2 +:+ ".jpg" ∨ filename = pretty 2 +:+ ".png")
      ∧ EvOpenAsset filename
        ∈ events (process_artworks
                    (sample_env (Ok (DocArray [2])) (Ok (Some "image/jpeg")) None)
                    true 10 (boot Absent)).
Proof.
  apply (local_image_names_written_file
           (sample_env (Ok (DocArray [2])) (Ok (Some "image/jpeg")) None)
           true 10 (boot Absent) 2
           (_extract_metadata (raw_record 2) (Some "2.jpg"))).
  apply (list_elem_of_lookup_2 _ 3%nat). vm_compute. reflexivity.
Defined.

(** X3: every entry appended in a run is the projection of a record that
    passed the eligibility tests: its [isPublicDomain] and its
    [primaryImage] are the fetched record's own values and both are truthy. *)
Theorem appended_entries_are_eligible (env : Env) (download_images : bool)
    (save_frequency : Z) (st : State) (object_id : Z)
    (entry : gmap string value) :
  EvAppend object_id entry
  ∈ events (process_artworks env download_images save_frequency st) →
  ∃ idx d public image,
    get_object env idx object_id = Ok d
    ∧ d !! "isPublicDomain" = Some public
    ∧ entry !! "isPublicDomain" = Some public
    ∧ truthy public = true
    ∧ d !! "primaryImage" = Some image
    ∧ entry !! "primaryImage" = Some image
    ∧ truthy image = true.
Proof.
  intros Hin.
  apply process_artworks_accepted in Hin
    as (idx & d & local & Hget & Hel & -> & _ & _).
  unfold eligible in Hel.
  apply andb_prop in Hel as [Hel Himg]. apply andb_prop in Hel as [_ Hpd].
  destruct (extract_metadata_source d local "isPublicDomain" (VBool false)
              eq_refl Hpd) as (public & Hp1 & Hp2 & Hp3).
  destruct (extract_metadata_source d local "primaryImage" (VStr "")
              eq_refl Himg) as (image & Hi1 & Hi2 & Hi3).
  exists idx, d, public, image. split_and!; done.
Qed.

Lemma appended_entries_are_eligible_witness :
  ∃ idx d public image,
    get_object (sample_env (Ok (DocArray [2])) (Raise Timeout) None) idx 2 = Ok d
    ∧ d !! "isPublicDomain" = Some public
    ∧ _extract_metadata (raw_record 2) None !! "isPublicDomain" = Some public
    ∧ truthy public = true
    ∧ d !! "primaryImage" = Some image
    ∧ _extract_metadata (raw_record 2) None !! "primaryImage" = Some image
    ∧ truthy image = true.
Proof.
  apply (appended_entries_are_eligible
           (sample_env (Ok (DocArray [2])) (Raise Timeout) None)
           true 10 (boot Absent) 2 (_extract_metadata (raw_record 2) None)).
  apply (list_elem_of_lookup_2 _ 2%nat). vm_compute. reflexivity.
Defined.

(** ** Downloads switched off *)

Definition not_download (e : event) : Prop := ¬ is_download_event e.

Lemma saves_not_download evs snapshot :
  Forall (λ e, e = EvSave snapshot) evs → Forall not_download evs.
Proof. intros H. eapply Forall_impl; [exact H|]. intros ? -> []. Qed.

Lemma process_one_no_download env sf idx object_id st :
  Forall not_download (events (process_one env false sf idx object_id st)).
Proof.
  process_one_cases env false sf idx object_id st d Hin Hget Hel;
    try (repeat constructor; by intros []).
  cbv zeta. cbn [download_stage]. run_monad.
  constructor; [by intros []|]. constructor; [by intros []|].
  constructor; [by intros []|]. apply Forall_app. split.
  - by eapply saves_not_download, maybe_save_events.
  - destruct (is_ok _); repeat constructor. by intros [].
Qed.

Lemma for_enumerate_no_download env sf object_ids : ∀ idx st,
  Forall not_download
    (events (for_enumerate (process_one env false sf) idx object_ids st)).
Proof.
  induction object_ids as [|object_id rest IH]; intros idx st; [constructor|].
  cbn [for_enumerate]. run_monad.
  pose proof (process_one_no_download env sf idx object_id st) as Hone.
  destruct (res (process_one _ _ _ idx object_id st)) as [[]|e];
    cbn [res final events]; [|done].
  apply Forall_app. split; [done|apply IH].
Qed.

(** X4: with [download_images=False] a run makes no image request and opens
    no asset file, and every entry it appends has [localImage] set to
    [None]. *)
Theorem disabled_download_requests_no_image (env : Env) (save_frequency : Z)
    (st : State) :
  (∀ e, e ∈ events (process_artworks env false save_frequency st) →
        ¬ is_download_event e)
  ∧ (∀ object_id entry,
       EvAppend object_id entry
       ∈ events (process_artworks env false save_frequency st) →
       entry !! "localImage" = Some VNone).
Proof.
  split.
  - apply Forall_forall. rewrite process_artworks_unfold.
    destruct (object_ids_of env) as [object_ids|e]; [|constructor].
    cbv zeta.
    pose proof (for_enumerate_no_download env save_frequency object_ids 1%nat st)
      as Hloop.
    destruct (res (for_enumerate _ _ _ _)) as [[]|e]; cbn [events outcome];
      [|done].
    apply Forall_app. split; [done|].
    by eapply saves_not_download, _save_metadata_events.
  - intros object_id entry Hin.
    apply process_artworks_accepted in Hin
      as (idx & d & local & _ & _ & -> & Hres & _).
    specialize (Hres st). cbn in Hres. by injection Hres as <-.
Qed.

Lemma disabled_download_requests_no_image_witness :
  _extract_metadata (raw_record 2) None !! "localImage" = Some VNone.
Proof.
  apply (disabled_download_requests_no_image
           (sample_env (Ok (DocArray [2])) (Ok None) None) 10 (boot Absent) ) with 2.
  apply (list_elem_of_lookup_2 _ 1%nat). vm_compute. reflexivity.
Defined.

(** ** A download interrupted while the body is streamed *)



(** ** The order of the requests *)

Lemma process_one_fetched env di sf idx object_id st :
  let o := process_one env di sf idx object_id st in
  (fetched (events o) = [] ∧ (appended (events o)).*1 = []
   ∧ KInt object_id ∈ processed_ids st)
  ∨ (fetched (events o) = [object_id]
     ∧ (appended (events o)).*1 `sublist_of` [object_id]).
Proof.
  cbv zeta.
  destruct (process_one_kind env di sf idx object_id st)
    as [Hin|e Hin|Hin|e dl Hin Hdl|entry dl r st' sv Hin Hdl Hsv Hm Hp];
    cbn [events outcome].
  - by left.
  - right. split; [done|]. apply sublist_nil_l.
  - right. split; [done|]. apply sublist_nil_l.
  - right. apply download_silent in Hdl.
    change (EvFetch object_id :: dl) with ([EvFetch object_id] ++ dl).
    rewrite fetched_app, appended_app, (silent_fetched dl), (silent_appended dl)
      by done.
    split; [done|]. apply sublist_nil_l.
  - right. apply download_silent in Hdl. apply save_silent in Hsv.
    change (EvFetch object_id :: dl ++ ?x) with ([EvFetch object_id] ++ dl ++ x).
    change (EvAppend object_id entry :: EvAddProcessed object_id :: sv ++ ?x)
      with ([EvAppend object_id entry; EvAddProcessed object_id] ++ sv ++ x).
    rewrite !fetched_app, !appended_app, (silent_fetched dl), (silent_appended dl),
      (silent_fetched sv), (silent_appended sv) by done.
    destruct (is_ok r); done.
Qed.

Lemma for_enumerate_fetched env di sf object_ids : ∀ idx st,
  let o := for_enumerate (process_one env di sf) idx object_ids st in
  fetched (events o) `sublist_of` object_ids
  ∧ (appended (events o)).*1 `sublist_of` fetched (events o).
Proof.
  induction object_ids as [|object_id rest IH]; intros idx st; cbv zeta.
  - done.
  - cbn [for_enumerate]. run_monad.
    pose proof (process_one_fetched env di sf idx object_id st) as Hone.
    cbv zeta in Hone.
    destruct (res (process_one _ _ _ idx object_id st)) as [[]|e];
      cbn [res final events].
    + destruct (IH (S idx) (final (process_one env di sf idx object_id st)))
        as [Hf Ha].
      rewrite fetched_app, appended_app, fmap_app.
      destruct Hone as [(-> & -> & _)|[-> Hs]].
      * split; [by apply sublist_cons|done].
      * split; [by apply sublist_skip|]. by apply (sublist_app _ [_]).
    + destruct Hone as [(-> & -> & _)|[-> Hs]].
      * split; [apply sublist_nil_l|done].
      * split; [|done]. apply sublist_skip, sublist_nil_l.
Qed.

(** X6: the IDs a run fetches are IDs of the input list, in the order of the
    list and at most once per occurrence, and the IDs it appends an entry
    for are among the fetched ones, in the same order. *)
Theorem requests_follow_input_order (env : Env) (download_images : bool)
    (save_frequency : Z) (st : State) (object_ids : list Z) :
  object_ids_of env = Ok object_ids →
  fetched (events (process_artworks env download_images save_frequency st))
  `sublist_of` object_ids
  ∧ (appended (events (process_artworks env download_images save_frequency st))).*1
    `sublist_of`
    fetched (events (process_artworks env download_images save_frequency st)).
Proof.
  intros Hids. rewrite process_artworks_unfold, Hids. cbv zeta.
  pose proof (for_enumerate_fetched env download_images save_frequency
                object_ids 1%nat st) as Hloop.
  cbv zeta in Hloop.
  destruct (res (for_enumerate _ _ _ _)) as [[]|e]; cbn [events outcome];
    [|done].
  pose proof (_save_metadata_events env 0%nat
                (final (for_enumerate
                          (process_one env download_images save_frequency)
                          1%nat object_ids st))) as Hsv.
  apply save_silent in Hsv.
  by rewrite fetched_app, appended_app, (silent_fetched _ Hsv),
    (silent_appended _ Hsv), !app_nil_r.
Qed.

Lemma requests_follow_input_order_witness :
  fetched (events (process_artworks
                     (sample_env (Ok (DocArray [3; 1; 3; 2])) (Ok None) None)
                     true 10 (boot Absent)))
  `sublist_of` [3; 1; 3; 2].
Proof.
  apply (requests_follow_input_order
           (sample_env (Ok (DocArray [3; 1; 3; 2])) (Ok None) None)
           true 10 (boot Absent) [3; 1; 3; 2] eq_refl).
Defined.

(** ** A list that is already processed *)

Lemma for_enumerate_all_processed env di sf object_ids : ∀ idx st,
  (∀ object_id, object_id ∈ object_ids → KInt object_id ∈ processed_ids st) →
  for_enumerate (process_one env di sf) idx object_ids st = outcome (Ok tt) st [].
Proof.
  induction object_ids as [|object_id rest IH]; intros idx st Hall; [done|].
  cbn [for_enumerate]. run_monad.
  rewrite process_one_skip by (apply Hall; constructor).
  cbn [res final events outcome app]. rewrite IH; [done|].
  intros id Hin. apply Hall. by constructor.
Qed.

(** X7: when every ID of the input list (the empty list included) is already
    in the processed-ID set, a run is just the final save: no fetch, no
    download, no wait and no change to the collection, whatever the value of
    [save_frequency] (zero included). *)
Theorem processed_input_only_saves (env : Env) (download_images : bool)
    (save_frequency : Z) (st : State) (object_ids : list Z) :
  object_ids_of env = Ok object_ids →
  (∀ object_id, object_id ∈ object_ids → KInt object_id ∈ processed_ids st) →
  process_artworks env download_images save_frequency st
  = _save_metadata env 0%nat st.
Proof.
  intros Hids Hall. rewrite process_artworks_unfold, Hids. cbv zeta.
  rewrite (for_enumerate_all_processed env download_images save_frequency
             object_ids 1%nat st Hall).
  cbn [res final events outcome app]. by destruct (_save_metadata env 0%nat st).
Qed.

(** A restart on a store that holds the records of 5 and 7, with the input
    list [7; 5; 7] and [save_frequency] zero. *)
Lemma processed_input_only_saves_witness :
  process_artworks (sample_env (Ok (DocArray [7; 5; 7])) (Ok None) None) true 0
    (final (__init__ (sample_env (Ok (DocArray [7; 5; 7])) (Ok None) None)
              (boot (Content [_extract_metadata (raw_record 5) None;
                              _extract_metadata (raw_record 7) None]))))
  = _save_metadata (sample_env (Ok (DocArray [7; 5; 7])) (Ok None) None) 0%nat
      (final (__init__ (sample_env (Ok (DocArray [7; 5; 7])) (Ok None) None)
                (boot (Content [_extract_metadata (raw_record 5) None;
                                _extract_metadata (raw_record 7) None])))).
Proof.
  apply (processed_input_only_saves
           (sample_env (Ok (DocArray [7; 5; 7])) (Ok None) None) true 0 _
           [7; 5; 7] eq_refl).
  apply Forall_forall.
  repeat constructor; apply bool_decide_unpack; vm_compute; exact I.
Defined.

(** ** Failures of the network only *)

(** Environments in which nothing but the network fails: requests raise
    [RequestException]s only, and the filesystem never fails. *)
Definition only_network_failures (env : Env) : Prop :=
  (∀ idx object_id e,
     get_object env idx object_id = Raise e → is_RequestException e = true)
  ∧ (∀ idx url e, get_image env idx url = Raise e → is_RequestException e = true)
  ∧ (∀ idx filename, open_asset env idx filename = None)
  ∧ (∀ idx e, stream_asset env idx = Some e → is_RequestException e = true)
  ∧ (∀ idx, write_output env idx = SaveOk).

(** The API gives a string for [primaryImage] whenever it gives a truthy
    value. *)
Definition image_urls_are_strings (env : Env) : Prop :=
  ∀ idx object_id d v,
    get_object env idx object_id = Ok d →
    d !! "primaryImage" = Some v → truthy v = true → ∃ url, v = VStr url.

Section NetworkFailures.

Context (env : Env) (download_images : bool) (save_frequency : Z).
Context (Hnet : only_network_failures env) (Hstr : image_urls_are_strings env).
Context (Hfreq : save_frequency ≠ 0).

Lemma _download_image_completes idx image_url object_id st :
  is_ok (res (_download_image env idx image_url object_id st)) = true.
Proof.
  destruct Hnet as (_ & Himg & Hopen & Hstream & _).
  unfold _download_image. destruct (String.eqb image_url ""); [done|].
  run_monad. destruct (get_image env idx image_url) as [header|e] eqn:Hget;
    run_monad.
  - rewrite Hopen. run_monad.
    destruct (stream_asset env idx) as [e|] eqn:Hs; run_monad; [|done].
    by rewrite (Hstream idx e Hs).
  - by rewrite (Himg idx image_url e Hget).
Qed.

Lemma _save_metadata_completes idx st :
  _save_metadata env idx st
  = outcome (Ok tt)
      {| metadata := metadata st; processed_ids := processed_ids st;
         output_file := Content (metadata st) |}
      [EvSave (metadata st)].
Proof.
  destruct Hnet as (_ & _ & _ & _ & Hwrite).
  unfold _save_metadata. run_monad. by rewrite Hwrite.
Qed.

Lemma maybe_save_completes idx st :
  is_ok (res (maybe_save env save_frequency idx st)) = true.
Proof.
  unfold maybe_save. run_monad.
  destruct (Z.eqb_spec save_frequency 0) as [?|_]; [done|].
  destruct (_ mod _ =? 0); [|done]. by rewrite _save_metadata_completes.
Qed.

Lemma process_one_completes idx object_id st :
  is_ok (res (process_one env download_images save_frequency idx object_id st))
  = true.
Proof.
  process_one_cases env download_images save_frequency idx object_id st
    d Hin Hget Hel; try done.
  - cbv zeta.
    assert (is_ok (res (download_stage env download_images idx object_id d st))
            = true) as Hdl.
    { unfold download_stage. destruct download_images; [|done].
      unfold eligible in Hel. apply andb_prop in Hel as [_ Hel].
      unfold dict_get in Hel.
      destruct (d !! "primaryImage") as [v|] eqn:Hv; [|discriminate].
      destruct (Hstr idx object_id d v Hget Hv Hel) as [url ->].
      apply _download_image_completes. }
    destruct (res (download_stage env download_images idx object_id d st))
      as [local|e]; [|discriminate].
    cbn [res outcome]. apply maybe_save_completes.
  - destruct Hnet as (Hobj & _). by rewrite (Hobj _ _ _ Hget) in Hreq.
Qed.

Lemma for_enumerate_completes object_ids : ∀ idx st,
  let o := for_enumerate (process_one env download_images save_frequency)
             idx object_ids st in
  is_ok (res o) = true
  ∧ ∀ object_id, object_id ∈ object_ids →
      KInt object_id ∈ processed_ids st ∨ object_id ∈ fetched (events o).
Proof.
  induction object_ids as [|object_id rest IH]; intros idx st; cbv zeta.
  - split; [done|]. by intros ? ?%elem_of_nil.
  - cbn [for_enumerate]. run_monad.
    pose proof (process_one_completes idx object_id st) as Hok.
    pose proof (process_one_fetched env download_images save_frequency idx
                  object_id st) as Hone.
    pose proof (run_inv_step env download_images save_frequency idx object_id st)
      as Hinv.
    cbv zeta in Hone.
    destruct (res (process_one _ _ _ idx object_id st)) as [[]|e];
      [|discriminate].
    cbn [res final events].
    destruct (IH (S idx)
                (final (process_one env download_images save_frequency idx
                          object_id st))) as [Hrest Hall].
    split; [done|]. intros id Hid. rewrite fetched_app.
    apply elem_of_cons in Hid as [->|Hid].
    + destruct Hone as [(_ & _ & Hin)|[-> _]]; [by left|].
      right. set_solver.
    + destruct (Hall id Hid) as [Hin|Hin]; [|right; set_solver].
      rewrite (inv_processed _ _ Hinv) in Hin.
      apply elem_of_union in Hin as [Hin|Hin]; [|by left].
      right. apply elem_of_app. left.
      apply (inv_appended_fetched _ _ Hinv).
      apply elem_of_list_to_set, list_elem_of_fmap in Hin as (id' & [= ->] & Hin).
      exact Hin.
Qed.

End NetworkFailures.



(** ** How much a crash can lose *)

(** The collection the next start would load from the output file. *)
Definition stored (disk : file_state) : list (gmap string value) :=
  match res (_load_existing_metadata (boot disk)) with
  | Ok c => c
  | Raise _ => []
  end.

(** The entries in memory that the output file does not hold yet. *)
Definition unsaved (st : State) : Z :=
  Z.of_nat (length (metadata st)) - Z.of_nat (length (stored (output_file st))).

(** The output file holds a prefix of the collection, and what is missing
    is no more than the entries appended since the size of the collection
    was last a multiple of the interval. *)
Definition checkpointed (save_frequency : Z) (st : State) : Prop :=
  stored (output_file st) `prefix_of` metadata st
  ∧ unsaved st ≤ Z.of_nat (length (metadata st)) mod save_frequency.

Lemma succ_mod_nonzero n m :
  0 < m → 0 ≤ n → (n + 1) mod m ≠ 0 → (n + 1) mod m = n mod m + 1.
Proof.
  intros Hm Hn Hnz.
  pose proof (Z.mod_pos_bound n m Hm) as Hr.
  pose proof (Z.div_mod n m ltac:(lia)) as Hdiv.
  destruct (Z.eq_dec (n mod m + 1) m) as [Heq|Hne].
  - exfalso. apply Hnz. apply Z.mod_divide; [lia|].
    exists (n / m + 1). lia.
  - symmetry. apply (Z.mod_unique_pos _ _ (n / m)); lia.
Qed.

Section Checkpoints.

Context (env : Env) (download_images : bool) (save_frequency : Z).
Context (Hfreq : 0 < save_frequency).
Context (Hwrite : ∀ idx, write_output env idx = SaveOk).

Lemma _save_metadata_checkpointed idx st :
  checkpointed save_frequency (final (_save_metadata env idx st))
  ∧ unsaved (final (_save_metadata env idx st)) = 0.
Proof.
  unfold _save_metadata. run_monad. rewrite Hwrite. run_monad.
  unfold checkpointed, unsaved. cbn [metadata output_file].
  change (stored (Content ?c)) with c.
  pose proof (Z.mod_pos_bound (Z.of_nat (length (metadata st))) save_frequency
                Hfreq).
  split_and!; [done|lia|lia].
Qed.

Lemma maybe_save_checkpointed idx st entry object_id :
  checkpointed save_frequency st →
  checkpointed save_frequency
    (final (maybe_save env save_frequency idx (accepted st object_id entry))).
Proof.
  intros [Hpre Hun]. unfold maybe_save. run_monad.
  destruct (Z.eqb_spec save_frequency 0) as [?|_]; [lia|].
  destruct (Z.eqb_spec
              (Z.of_nat (length (metadata (accepted st object_id entry)))
               mod save_frequency) 0) as [Hz|Hnz].
  - apply _save_metadata_checkpointed.
  - cbn [final ret]. unfold checkpointed, unsaved in *.
    cbn [accepted metadata output_file] in *.
    rewrite length_app, Nat2Z.inj_add in *. cbn [length] in *.
    change (Z.of_nat 1) with 1 in *.
    split; [by apply prefix_app_r|].
    rewrite succ_mod_nonzero by (done || lia). lia.
Qed.

Lemma process_one_checkpointed idx object_id st :
  checkpointed save_frequency st →
  checkpointed save_frequency
    (final (process_one env download_images save_frequency idx object_id st)).
Proof.
  intros Hst.
  process_one_cases env download_images save_frequency idx object_id st
    d Hin Hget Hel; try done.
  cbv zeta.
  destruct (res (download_stage env download_images idx object_id d st))
    as [local|e]; [|done].
  cbn [final outcome]. by apply maybe_save_checkpointed.
Qed.

Lemma for_enumerate_checkpointed object_ids : ∀ idx st,
  checkpointed save_frequency st →
  checkpointed save_frequency
    (final (for_enumerate (process_one env download_images save_frequency)
              idx object_ids st)).
Proof.
  induction object_ids as [|object_id rest IH]; intros idx st Hst; [done|].
  cbn [for_enumerate]. run_monad.
  pose proof (process_one_checkpointed idx object_id st Hst) as Hone.
  destruct (res (process_one _ _ _ idx object_id st)) as [[]|e];
    cbn [res final events]; [|done].
  by apply IH.
Qed.

End Checkpoints.



(** ** Stopping and starting again *)

(** The API answers a request for an ID with the record of that ID. *)
Definition api_returns_requested_record (env : Env) : Prop :=
  ∀ idx object_id d,
    get_object env idx object_id = Ok d → d !! "objectID" = Some (VInt object_id).

Lemma ids_of_metadata_app c1 : ∀ c2 s1 s2,
  ids_of_metadata c1 = Ok s1 → ids_of_metadata c2 = Ok s2 →
  ids_of_metadata (c1 ++ c2) = Ok (s1 ∪ s2).
Proof.
  induction c1 as [|item c1 IH]; intros c2 s1 s2 H1 H2; cbn [app ids_of_metadata] in *.
  - injection H1 as <-. rewrite H2. f_equal. set_solver.
  - destruct (item !! "objectID") as [v|]; [|discriminate].
    destruct (hash_key v) as [k|]; [|discriminate].
    destruct (ids_of_metadata c1) as [s|] eqn:Hc1; [|discriminate].
    injection H1 as <-. rewrite (IH c2 s s2 eq_refl H2). f_equal. set_solver.
Qed.

Lemma ids_of_appended (l : list (Z * gmap string value)) :
  (∀ object_id entry, (object_id, entry) ∈ l →
     entry !! "objectID" = Some (VInt object_id)) →
  ids_of_metadata l.*2 = Ok (list_to_set (KInt <$> l.*1)).
Proof.
  induction l as [|[object_id entry] l IH]; intros Hl; [done|].
  rewrite !fmap_cons. cbn [ids_of_metadata fst snd list_to_set].
  rewrite (Hl object_id entry) by constructor. cbn [hash_key].
  rewrite IH; [done|]. intros id' entry' Hin. apply Hl. by constructor.
Qed.

Lemma __init___succeeded env disk :
  res (__init__ env (boot disk)) = Ok tt →
  mkdir_images env = None
  ∧ output_file (final (__init__ env (boot disk))) = disk
  ∧ ids_of_metadata (metadata (final (__init__ env (boot disk))))
    = Ok (processed_ids (final (__init__ env (boot disk)))).
Proof.
  unfold __init__. run_monad.
  destruct (mkdir_images env) as [e|]; run_monad; [discriminate|].
  pose proof (_load_existing_metadata_quiet (boot disk)) as [Hf _].
  destruct (_load_existing_metadata (boot disk)) as [[loaded|e] st1 evs1];
    cbn [res final events] in *; subst; [|discriminate].
  destruct (ids_of_metadata loaded) as [ids|e] eqn:Hids; run_monad;
    [|discriminate].
  done.
Qed.

Lemma __init___content env c ids :
  mkdir_images env = None →
  ids_of_metadata c = Ok ids →
  __init__ env (boot (Content c))
  = outcome (Ok tt)
      {| metadata := c; processed_ids := ids; output_file := Content c |} [].
Proof.
  intros Hmk Hids. unfold __init__. run_monad. rewrite Hmk. run_monad.
  unfold _load_existing_metadata, read_output, boot. run_monad.
  cbn [output_file]. run_monad. rewrite Hids. reflexivity.
Qed.

(** X10: take a whole run (construction, then the loop) that completes,
    against an API that answers each request with the record of the
    requested ID. Starting the program again on the output file it left
    (with any other environment in which the images directory can be
    created) gives back the same collection and the same processed-ID set,
    and the new run fetches none of the IDs for which the first run
    appended an entry. *)
Theorem restart_resumes_where_run_ended (env1 env2 : Env)
    (download_images1 download_images2 : bool)
    (save_frequency1 save_frequency2 : Z) (disk : file_state) :
  let run1 := main env1 download_images1 save_frequency1 (boot disk) in
  let disk' := output_file (final run1) in
  api_returns_requested_record env1 →
  res run1 = Ok tt →
  mkdir_images env2 = None →
  __init__ env2 (boot disk')
  = outcome (Ok tt)
      {| metadata := metadata (final run1);
         processed_ids := processed_ids (final run1);
         output_file := disk' |} []
  ∧ ∀ object_id entry,
      EvAppend object_id entry ∈ events run1 →
      EvFetch object_id
      ∉ events (main env2 download_images2 save_frequency2 (boot disk')).
Proof.
  intros run1 disk' Hapi Hok Hmk.
  subst disk' run1. revert Hok. rewrite main_unfold. cbv zeta.
  destruct (res (__init__ env1 (boot disk))) as [[]|e] eqn:Hinit;
    [|discriminate].
  apply __init___succeeded in Hinit as (_ & _ & Hids1).
  set (st1 := final (__init__ env1 (boot disk))) in *.
  set (run := process_artworks env1 download_images1 save_frequency1 st1).
  intros Hok.
  pose proof (process_artworks_flushed env1 download_images1 save_frequency1 st1)
    as Hflush.
  cbv zeta in Hflush. fold run in Hflush. rewrite Hok in Hflush.
  specialize (Hflush eq_refl).
  destruct (run_inv_process_artworks env1 download_images1 save_frequency1 st1)
    as [Hm Hp _ _ _ _ _ _].
  fold run in Hm, Hp.
  assert (ids_of_metadata (metadata (final run)) = Ok (processed_ids (final run)))
    as Hids.
  { assert (ids_of_metadata (appended (events run)).*2
            = Ok (list_to_set (KInt <$> (appended (events run)).*1))) as Hnew.
    { apply ids_of_appended. intros id entry Hin. apply elem_of_appended in Hin.
      by eapply appended_entries_carry_their_id. }
    rewrite Hm, Hp, (ids_of_metadata_app _ _ _ _ Hids1 Hnew).
    f_equal. set_solver. }
  assert (__init__ env2 (boot (output_file (final run)))
          = outcome (Ok tt)
              {| metadata := metadata (final run);
                 processed_ids := processed_ids (final run);
                 output_file := output_file (final run) |} []) as Hinit2.
  { rewrite Hflush. by apply __init___content. }
  split; [exact Hinit2|].
  intros object_id entry Hin. rewrite main_unfold. cbv zeta. rewrite Hinit2.
  cbn [res final outcome]. apply processed_never_fetched.
  cbn [processed_ids]. rewrite Hp. apply elem_of_union_l, elem_of_list_to_set.
  apply list_elem_of_fmap. exists object_id. split; [done|].
  apply list_elem_of_fmap. exists (object_id, entry). split; [done|].
  by apply elem_of_appended.
Qed.

Lemma restart_resumes_where_run_ended_witness :
  EvFetch 1
  ∉ events (main (sample_env (Ok (DocArray [2; 1; 5])) (Raise Timeout) None)
              false 3
              (boot (output_file
                       (final (main (sample_env (Ok (DocArray [1; 2])) (Ok None) None)
                                 true 10 (boot Absent)))))).
Proof.
  apply (restart_resumes_where_run_ended
           (sample_env (Ok (DocArray [1; 2])) (Ok None) None)
           (sample_env (Ok (DocArray [2; 1; 5])) (Raise Timeout) None)
           true false 10 3 Absent)
    with (entry := _extract_metadata (raw_record 1) (Some "1.jpg")).
  - intros idx id d [= <-]. reflexivity.
  - vm_compute. reflexivity.
  - reflexivity.
  - apply (list_elem_of_lookup_2 _ 3%nat). vm_compute. reflexivity.
Defined.

(** ** Constructing the scraper on a stored collection *)

(** An entry from which [__init__] can take an element of the processed-ID
    set: it has the key ['objectID'] and the value is hashable. *)
Definition has_hashable_id (item : gmap string value) : Prop :=
  ∃ v k, item !! "objectID" = Some v ∧ hash_key v = Some k.

Lemma ids_of_metadata_ok c :
  is_ok (ids_of_metadata c) = true ↔ Forall has_hashable_id c.
Proof.
  induction c as [|item c IH]; cbn [ids_of_metadata].
  - split; [constructor|done].
  - destruct (item !! "objectID") as [v|] eqn:Hv.
    + destruct (hash_key v) as [k|] eqn:Hk.
      * destruct (ids_of_metadata c) as [s|e]; cbn [is_ok] in *.
        -- split; [|done]. intros _. constructor; [by exists v, k|by apply IH].
        -- split; [done|]. intros [_ Hc]%Forall_cons. by apply IH in Hc.
      * split; [done|]. intros [(v' & k' & Hv' & Hk') _]%Forall_cons.
        congruence.
    + split; [done|]. intros [(v' & k' & Hv' & _) _]%Forall_cons. congruence.
Qed.

Lemma ids_of_metadata_error c e :
  ids_of_metadata c = Raise e → e = KeyError ∨ e = TypeError.
Proof.
  induction c as [|item c IH]; cbn [ids_of_metadata]; [discriminate|].
  destruct (item !! "objectID") as [v|]; [|intros [= <-]; by left].
  destruct (hash_key v) as [k|]; [|intros [= <-]; by right].
  destruct (ids_of_metadata c) as [s|e']; [discriminate|].
  intros [= <-]. by apply IH.
Qed.

(** X11: on a parsable output file (and a creatable images directory) the
    construction of the scraper succeeds exactly when every stored entry has
    an ['objectID'] key with a hashable value; it then holds the stored
    collection. Otherwise it raises [KeyError] (a missing key) or [TypeError]
    (a list or a dictionary as ID), and nothing has been fetched or
    written. *)
Theorem construction_needs_object_ids (env : Env) (c : list (gmap string value)) :
  let o := __init__ env (boot (Content c)) in
  mkdir_images env = None →
  (is_ok (res o) = true ↔ Forall has_hashable_id c)
  ∧ (is_ok (res o) = true → metadata (final o) = c)
  ∧ (is_ok (res o) = false → res o = Raise KeyError ∨ res o = Raise TypeError)
  ∧ events o = []
  ∧ output_file (final o) = Content c.
Proof.
  intros o Hmk. subst o.
  destruct (__init___quiet env (boot (Content c))) as [Hfile Hev].
  split_and!; try done.
  - rewrite <- ids_of_metadata_ok.
    unfold __init__. run_monad. rewrite Hmk. run_monad.
    unfold _load_existing_metadata, read_output, boot. run_monad.
    cbn [output_file]. run_monad. by destruct (ids_of_metadata c).
  - intros Hok. by apply __init___loaded in Hok as [Hm _].
  - unfold __init__. run_monad. rewrite Hmk. run_monad.
    unfold _load_existing_metadata, read_output, boot. run_monad.
    cbn [output_file]. run_monad.
    destruct (ids_of_metadata c) as [s|e] eqn:Hids; run_monad; [done|].
    intros _. apply ids_of_metadata_error in Hids as [-> | ->]; auto.
Qed.

Lemma construction_needs_object_ids_witness :
  res (__init__ (sample_env (Ok (DocArray [])) (Ok None) None)
         (boot (Content [raw_record 1; ∅])))
  = Raise KeyError
  ∨ res (__init__ (sample_env (Ok (DocArray [])) (Ok None) None)
           (boot (Content [raw_record 1; ∅])))
    = Raise TypeError.
Proof.
  apply (construction_needs_object_ids
           (sample_env (Ok (DocArray [])) (Ok None) None) [raw_record 1; ∅]);
    reflexivity.
Defined.

(** ** Which images are requested *)

Lemma _download_image_event env idx image_url object_id st e :
  e ∈ events (_download_image env idx image_url object_id st) →
  e = EvDownload image_url object_id ∨ ∃ filename, e = EvOpenAsset filename.
Proof.
  unfold _download_image. destruct (String.eqb image_url "");
    [by intros ?%elem_of_nil|].
  run_monad. destruct (get_image env idx image_url) as [header|e']; run_monad.
  - destruct (open_asset env idx _) as [e'|]; run_monad.
    + destruct (is_RequestException e'); cbn; set_solver.
    + destruct (stream_asset env idx) as [e'|]; run_monad;
        [destruct (is_RequestException e')|]; cbn;
        rewrite ?app_nil_r;
        intros [->|[->|?%elem_of_nil]%elem_of_cons]%elem_of_cons; eauto; done.
  - destruct (is_RequestException e'); cbn; set_solver.
Qed.

Section ImageRequests.

Context (env : Env) (download_images : bool) (save_frequency : Z).

(** The record behind an image request. *)
Definition requested_for (url : string) (object_id : Z) : Prop :=
  download_images = true
  ∧ ∃ idx d original,
      get_object env idx object_id = Ok d
      ∧ eligible d = true
      ∧ d !! "primaryImage" = Some (VStr original)
      ∧ url = _get_optimized_image_url original.

Lemma download_stage_request idx object_id d st url id' :
  get_object env idx object_id = Ok d →
  eligible d = true →
  EvDownload url id'
  ∈ events (download_stage env download_images idx object_id d st) →
  id' = object_id ∧ requested_for url object_id.
Proof.
  intros Hget Hel. unfold download_stage.
  destruct download_images eqn:Hdi; [|by intros ?%elem_of_nil].
  destruct (d !! "primaryImage") as [[| | |original| |]|] eqn:Hd;
    try (by intros ?%elem_of_nil).
  intros Hin. apply _download_image_event in Hin as [[= -> ->]|[f [=]]].
  split; [done|]. split; [done|]. by exists idx, d, original.
Qed.

Lemma process_one_request idx object_id st url id' :
  EvDownload url id'
  ∈ events (process_one env download_images save_frequency idx object_id st) →
  requested_for url id'.
Proof.
  process_one_cases env download_images save_frequency idx object_id st
    d Hin Hget Hel; try set_solver.
  cbv zeta.
  pose proof (download_stage_request idx object_id d st url id' Hget Hel) as Hreq.
  destruct (res (download_stage env download_images idx object_id d st))
    as [local|e]; cbn [events outcome].
  - pose proof (maybe_save_events env save_frequency idx
                  (accepted st object_id (_extract_metadata d local))) as Hsv.
    rewrite Forall_forall in Hsv.
    intros [[=]|[Hdl|Hrest]%elem_of_app]%elem_of_cons.
    + by apply Hreq in Hdl as [-> ?].
    + apply elem_of_cons in Hrest as [[=]|Hrest].
      apply elem_of_cons in Hrest as [[=]|Hrest].
      apply elem_of_app in Hrest as [Hs|Ht]; [by apply Hsv in Hs|].
      destruct (is_ok _); set_solver.
  - intros [[=]|Hdl]%elem_of_cons. by apply Hreq in Hdl as [-> ?].
Qed.

Lemma for_enumerate_request object_ids : ∀ idx st url id',
  EvDownload url id'
  ∈ events (for_enumerate (process_one env download_images save_frequency)
              idx object_ids st) →
  requested_for url id'.
Proof.
  induction object_ids as [|object_id rest IH]; intros idx st url id'.
  - by intros ?%elem_of_nil.
  - cbn [for_enumerate]. run_monad.
    destruct (res (process_one _ _ _ idx object_id st)) as [[]|e];
      cbn [res final events].
    + intros [Hin|Hin]%elem_of_app; [by eapply process_one_request|by eapply IH].
    + by apply process_one_request.
Qed.

End ImageRequests.

(** X12: every image request of a run is made with downloads enabled, for an
    ID whose record was fetched and passed the eligibility tests, and on the
    rewrite of that record's [primaryImage]: no image is requested for a
    record that was rejected or not fetched. *)
Theorem image_requests_are_for_eligible_records (env : Env)
    (download_images : bool) (save_frequency : Z) (st : State)
    (url : string) (object_id : Z) :
  EvDownload url object_id
  ∈ events (process_artworks env download_images save_frequency st) →
  download_images = true
  ∧ ∃ idx d original,
      get_object env idx object_id = Ok d
      ∧ eligible d = true
      ∧ d !! "primaryImage" = Some (VStr original)
      ∧ url = _get_optimized_image_url original.
Proof.
  rewrite process_artworks_unfold.
  destruct (object_ids_of env) as [object_ids|e]; [|by intros ?%elem_of_nil].
  cbv zeta.
  pose proof (for_enumerate_request env download_images save_frequency
                object_ids 1%nat st url object_id) as Hloop.
  destruct (res (for_enumerate _ _ _ _)) as [[]|e]; cbn [events outcome];
    [|exact Hloop].
  intros [Hin|Hin]%elem_of_app; [by apply Hloop|].
  pose proof (_save_metadata_events env 0%nat
                (final (for_enumerate
                          (process_one env download_images save_frequency)
                          1%nat object_ids st))) as Hsv.
  rewrite Forall_forall in Hsv. by apply Hsv in Hin.
Qed.

Lemma image_requests_are_for_eligible_records_witness :
  true = true
  ∧ ∃ idx d original,
      get_object (sample_env (Ok (DocArray [2])) (Raise Timeout) None) idx 2 = Ok d
      ∧ eligible d = true
      ∧ d !! "primaryImage" = Some (VStr original)
      ∧ _get_optimized_image_url sample_url = _get_optimized_image_url original.
Proof.
  apply (image_requests_are_for_eligible_records
           (sample_env (Ok (DocArray [2])) (Raise Timeout) None)
           true 10 (boot Absent) (_get_optimized_image_url sample_url) 2).
  apply (list_elem_of_lookup_2 _ 1%nat). vm_compute. reflexivity.
Defined.

(** ** Waits between fetches *)

(** Scanning a trace for two fetches with no wait between them. [waited]
    says whether a wait has happened since the last fetch; the result is
    the flag at the end, or [None] when a fetch comes before the wait. *)
Fixpoint spaced (waited : bool) (evs : list event) : option bool :=
  match evs with
  | [] => Some waited
  | EvFetch _ :: rest => if waited then spaced false rest else None
  | EvSleep :: rest => spaced true rest
  | _ :: rest => spaced waited rest
  end.

Lemma spaced_app waited evs1 evs2 :
  spaced waited (evs1 ++ evs2)
  = match spaced waited evs1 with
    | Some waited' => spaced waited' evs2
    | None => None
    end.
Proof.
  revert waited. induction evs1 as [|e evs1 IH]; intros waited; [done|].
  destruct e; cbn [app spaced]; try apply IH. by destruct waited.
Qed.

Lemma spaced_silent waited evs : Forall silent evs → spaced waited evs = Some waited.
Proof. induction 1 as [|[] ? H]; cbn in *; by try done. Qed.

Lemma spaced_waited evs : ∀ waited,
  spaced false evs = Some waited → waited = true → EvSleep ∈ evs.
Proof.
  induction evs as [|e evs IH]; intros waited; cbn [spaced].
  - by intros [= <-] ?.
  - destruct e; try discriminate;
      try (intros H1 H2; apply elem_of_cons; right; by eapply IH).
    intros _ _. constructor.
Qed.

Lemma spaced_between evs : ∀ waited waited' pre a mid b post,
  spaced waited evs = Some waited' →
  evs = pre ++ EvFetch a :: mid ++ EvFetch b :: post →
  EvSleep ∈ mid.
Proof.
  intros waited waited' pre a mid b post Hsp ->.
  rewrite spaced_app in Hsp.
  destruct (spaced waited pre) as [w1|]; [|discriminate].
  cbn [spaced] in Hsp. destruct w1; [|discriminate].
  rewrite spaced_app in Hsp.
  destruct (spaced false mid) as [w2|] eqn:Hmid; [|discriminate].
  cbn [spaced] in Hsp. destruct w2; [|discriminate].
  by eapply spaced_waited.
Qed.

Section Spacing.

Context (env : Env) (download_images : bool) (save_frequency : Z).

Lemma process_one_spaced idx object_id st :
  spaced true (events (process_one env download_images save_frequency idx object_id st))
  = Some (is_ok (res (process_one env download_images save_frequency idx object_id st))).
Proof.
  destruct (process_one_kind env download_images save_frequency idx object_id st)
    as [Hin|e Hin|Hin|e dl Hin Hdl|entry dl r st' sv Hin Hdl Hsv Hm Hp];
    cbn [res events outcome is_ok spaced]; try done.
  - by apply spaced_silent, download_silent.
  - apply download_silent in Hdl. apply save_silent in Hsv.
    rewrite spaced_app, (spaced_silent _ _ Hdl). cbn [spaced].
    rewrite spaced_app, (spaced_silent _ _ Hsv). by destruct (is_ok r).
Qed.

Lemma for_enumerate_spaced object_ids : ∀ idx st,
  spaced true
    (events (for_enumerate (process_one env download_images save_frequency)
               idx object_ids st))
  = Some (is_ok (res (for_enumerate (process_one env download_images save_frequency)
                        idx object_ids st))).
Proof.
  induction object_ids as [|object_id rest IH]; intros idx st; [done|].
  cbn [for_enumerate]. run_monad.
  pose proof (process_one_spaced idx object_id st) as Hone.
  destruct (res (process_one _ _ _ idx object_id st)) as [[]|e];
    cbn [res final events is_ok] in *; [|done].
  rewrite spaced_app, Hone. apply IH.
Qed.

End Spacing.

(** X13: in the trace of any run, between two fetches of the catalogue API
    there is always a rate-limit wait. *)
Theorem fetches_are_separated_by_waits (env : Env) (download_images : bool)
    (save_frequency : Z) (st : State) (pre : list event) (a : Z)
    (mid : list event) (b : Z) (post : list event) :
  events (process_artworks env download_images save_frequency st)
  = pre ++ EvFetch a :: mid ++ EvFetch b :: post →
  EvSleep ∈ mid.
Proof.
  assert (∃ waited,
            spaced true
              (events (process_artworks env download_images save_frequency st))
            = Some waited) as [waited Hsp].
  { rewrite process_artworks_unfold.
    destruct (object_ids_of env) as [object_ids|e]; [|by exists true].
    cbv zeta.
    pose proof (for_enumerate_spaced env download_images save_frequency
                  object_ids 1%nat st) as Hloop.
    destruct (res (for_enumerate _ _ _ _)) as [[]|e];
      cbn [res events outcome is_ok] in *; [|by exists false].
    pose proof (_save_metadata_events env 0%nat
                  (final (for_enumerate
                            (process_one env download_images save_frequency)
                            1%nat object_ids st))) as Hsv.
    apply save_silent in Hsv. exists true.
    by rewrite spaced_app, Hloop, (spaced_silent _ _ Hsv). }
  by apply (spaced_between _ true waited).
Qed.

Lemma fetches_are_separated_by_waits_witness :
  EvSleep
  ∈ [EvAppend 1 (_extract_metadata (raw_record 1) None); EvAddProcessed 1; EvSleep].
Proof.
  apply (fetches_are_separated_by_waits
           (sample_env (Ok (DocArray [1; 2])) (Ok None) None) false 10
           (boot Absent) [] 1
           [EvAppend 1 (_extract_metadata (raw_record 1) None); EvAddProcessed 1;
            EvSleep]
           2
           [EvAppend 2 (_extract_metadata (raw_record 2) None); EvAddProcessed 2;
            EvSleep;
            EvSave [_extract_metadata (raw_record 1) None;
                    _extract_metadata (raw_record 2) None]]).
  vm_compute. reflexivity.
Defined.

(** * The scripts that read the collection

    [extract_objectids.py] and [split_json.py] read [met_metadata.json], the
    file the scraper writes. They are straight-line scripts; their [print]
    calls are not modelled. As for the scraper, a parsable file holds a list
    of dictionaries. *)

From stdpp Require Import sorting.

Open Scope Z_scope.

#[global] Instance result_ret : MRet result := @Ok.
#[global] Instance result_bind : MBind result :=
  λ A B k r, match r with Ok a => k a | Raise e => Raise e end.

(** [with open(path, 'r', encoding='utf-8') as f: json.load(f)], with no
    handler around it. *)
Definition load_json_file (file : file_state) : result (list (gmap string value)) :=
  match file with
  | Absent => Raise FileNotFoundError
  | Unparsable => Raise JSONDecodeError
  | Undecodable => Raise UnicodeDecodeError
  | Unreadable e => Raise e
  | Content c => Ok c
  end.

(** ** [list.sort()] on JSON values *)

Definition as_number (v : value) : option Z :=
  match v with
  | VInt z => Some z
  | VBool b => Some (Z.b2z b)
  | _ => None
  end.

Definition as_text (v : value) : option string :=
  match v with VStr s => Some s | _ => None end.

Definition is_compound (v : value) : bool :=
  match v with VList _ | VDict _ => true | _ => false end.

(** [x <= y] between two numbers (booleans count as 0 and 1), and between
    two strings. *)
Definition number_le (x y : value) : bool :=
  match as_number x, as_number y with
  | Some a, Some b => a <=? b
  | _, _ => false
  end.

Definition text_le (x y : value) : bool :=
  match as_text x, as_text y with
  | Some a, Some b => String.leb a b
  | _, _ => false
  end.

(** A stable sort: an element goes before the first element of the sorted
    rest that is not smaller, so equal elements keep their order. *)
Fixpoint insert_by (le : value → value → bool) (x : value) (sorted : list value)
  : list value :=
  match sorted with
  | [] => [x]
  | y :: rest => if le x y then x :: sorted else y :: insert_by le x rest
  end.

Definition sort_by (le : value → value → bool) (l : list value) : list value :=
  foldr (insert_by le) [] l.

Section ListSort.

(** [list.sort()] when the list has two elements or more and one of them is
    a list or a dictionary: which nested values get compared depends on the
    sorting algorithm, and is left open. *)
Context (sort_compound : list value → result (list value)).

(** [l.sort()]: a list of fewer than two elements is not compared at all;
    numbers sort by value and strings by character code, stably; [None],
    or numbers mixed with strings, cannot be ordered. *)
Definition list_sort (l : list value) : result (list value) :=
  match l with
  | [] | [_] => Ok l
  | _ =>
    if existsb is_compound l then sort_compound l
    else if forallb (λ v, bool_decide (is_Some (as_number v))) l
    then Ok (sort_by number_le l)
    else if forallb (λ v, bool_decide (is_Some (as_text v))) l
    then Ok (sort_by text_le l)
    else Raise TypeError
  end.

(** ** [extract_objectids.py] *)

(** [[artwork['objectID'] for artwork in artworks]] *)
Fixpoint object_id_column (artworks : list (gmap string value)) : result (list value) :=
  match artworks with
  | [] => Ok []
  | artwork :: rest =>
    match artwork !! "objectID" with
    | None => Raise KeyError
    | Some v =>
      match object_id_column rest with
      | Ok vs => Ok (v :: vs)
      | Raise e => Raise e
      end
    end
  end.

(** The script. [write] is the outcome of opening [object_ids.json] and
    dumping the list; the result is the list the file then holds. *)
Definition extract_objectids (metadata_json : file_state) (write : option exn)
  : result (list value) :=
  artworks ← load_json_file metadata_json;
  object_ids ← object_id_column artworks;
  sorted ← list_sort object_ids;
  match write with
  | Some e => Raise e
  | None => Ok sorted
  end.

End ListSort.

(** A collection whose entries have the integers [ids] as [objectID], in
    order. *)
Definition has_integer_ids (c : list (gmap string value)) (ids : list Z) : Prop :=
  Forall2 (λ item z, item !! "objectID" = Some (VInt z)) c ids.

Lemma object_id_column_integers c ids :
  has_integer_ids c ids → object_id_column c = Ok (VInt <$> ids).
Proof.
  induction 1 as [|item z c ids Hitem _ IH]; [done|].
  cbn [object_id_column]. by rewrite Hitem, IH.
Qed.

Lemma insert_by_integers z : ∀ sorted,
  Sorted Z.le sorted →
  ∃ sorted',
    insert_by number_le (VInt z) (VInt <$> sorted) = VInt <$> sorted'
    ∧ Sorted Z.le sorted'
    ∧ sorted' ≡ₚ z :: sorted
    ∧ (∀ lo, lo ≤ z → HdRel Z.le lo sorted → HdRel Z.le lo sorted').
Proof.
  induction sorted as [|y sorted IH]; intros Hs.
  - exists [z]. split_and!; try done.
    + by repeat constructor.
    + intros lo Hlo _. by constructor.
  - rewrite fmap_cons. cbn [insert_by number_le as_number].
    destruct (Z.leb_spec z y) as [Hle|Hgt].
    + exists (z :: y :: sorted). split_and!; try done.
      * constructor; [done|]. by constructor.
      * intros lo Hlo _. by constructor.
    + apply Sorted_inv in Hs as [Hs Hhd].
      destruct (IH Hs) as (sorted' & Heq & Hs' & Hp & Hhd').
      exists (y :: sorted'). split_and!.
      * by rewrite Heq.
      * constructor; [done|]. apply Hhd'; [lia|done].
      * rewrite Hp. apply perm_swap.
      * intros lo Hlo Hlo'. constructor. by apply HdRel_inv in Hlo'.
Qed.

Lemma sort_by_integers ids :
  ∃ sorted,
    sort_by number_le (VInt <$> ids) = VInt <$> sorted
    ∧ Sorted Z.le sorted ∧ sorted ≡ₚ ids.
Proof.
  induction ids as [|z ids (sorted & Heq & Hs & Hp)].
  - exists []. split_and!; done.
  - rewrite fmap_cons. cbn [sort_by foldr]. fold (sort_by number_le (VInt <$> ids)).
    rewrite Heq.
    destruct (insert_by_integers z sorted Hs) as (sorted' & Heq' & Hs' & Hp' & _).
    exists sorted'. split_and!; [done|done|]. by rewrite Hp', Hp.
Qed.

Lemma list_sort_integers sort_compound ids :
  ∃ sorted,
    list_sort sort_compound (VInt <$> ids) = Ok (VInt <$> sorted)
    ∧ Sorted Z.le sorted ∧ sorted ≡ₚ ids.
Proof.
  destruct ids as [|a [|b ids]].
  - exists []. split_and!; done.
  - exists [a]. split_and!; try done. by repeat constructor.
  - destruct (sort_by_integers (a :: b :: ids)) as (sorted & Heq & Hs & Hp).
    exists sorted. split_and!; try done.
    rewrite <- Heq. unfold list_sort. rewrite !fmap_cons.
    assert (existsb is_compound (VInt a :: VInt b :: (VInt <$> ids)) = false) as ->.
    { cbn. clear. by induction ids. }
    assert (forallb (λ v, bool_decide (is_Some (as_number v)))
              (VInt a :: VInt b :: (VInt <$> ids)) = true) as ->; [|done].
    cbn. clear. by induction ids.
Qed.

Lemma extract_objectids_integers sort_compound c ids :
  has_integer_ids c ids →
  ∃ sorted,
    extract_objectids sort_compound (Content c) None = Ok (VInt <$> sorted)
    ∧ Sorted Z.le sorted ∧ sorted ≡ₚ ids.
Proof.
  intros Hc.
  destruct (list_sort_integers sort_compound ids) as (sorted & Heq & Hs & Hp).
  exists sorted. split_and!; try done.
  unfold extract_objectids. cbn [load_json_file mbind result_bind].
  rewrite (object_id_column_integers c ids Hc). cbn. by rewrite Heq.
Qed.

(** X14: on a collection whose object IDs are integers, the script writes
    the IDs in ascending order, and the list it writes is a rearrangement of
    the IDs of the collection: none is lost or added, and an ID stored twice
    is written twice. *)
Theorem extract_objectids_sorts_ids
    (sort_compound : list value → result (list value))
    (c : list (gmap string value)) (ids : list Z) :
  has_integer_ids c ids →
  ∃ sorted,
    extract_objectids sort_compound (Content c) None = Ok (VInt <$> sorted)
    ∧ Sorted Z.le sorted
    ∧ sorted ≡ₚ ids.
Proof. apply extract_objectids_integers. Qed.

Lemma extract_objectids_sorts_ids_witness :
  ∃ sorted,
    extract_objectids (λ _, Raise TypeError)
      (Content [raw_record 7; raw_record 3; raw_record 7]) None
    = Ok (VInt <$> sorted)
    ∧ Sorted Z.le sorted
    ∧ sorted ≡ₚ [7; 3; 7].
Proof.
  apply (extract_objectids_sorts_ids (λ _, Raise TypeError)
           [raw_record 7; raw_record 3; raw_record 7] [7; 3; 7]).
  repeat constructor.
Defined.

(** X15: on a collection whose object IDs are integers, the list the script
    writes is an input on which the scraper, started on the same collection,
    does nothing but its final save: every extracted ID is already
    processed. *)
Theorem extracted_ids_are_all_processed
    (sort_compound : list value → result (list value))
    (env : Env) (download_images : bool) (save_frequency : Z)
    (c : list (gmap string value)) (ids : list Z) :
  has_integer_ids c ids →
  mkdir_images env = None →
  ∃ sorted processed,
    extract_objectids sort_compound (Content c) None = Ok (VInt <$> sorted)
    ∧ ids_of_metadata c = Ok processed
    ∧ (read_input env = Ok (DocArray sorted) →
       main env download_images save_frequency (boot (Content c))
       = _save_metadata env 0%nat
           {| metadata := c; processed_ids := processed;
              output_file := Content c |}).
Proof.
  intros Hc Hmk.
  destruct (extract_objectids_integers sort_compound c ids Hc)
    as (sorted & Heq & _ & Hp).
  assert (∃ processed, ids_of_metadata c = Ok processed
                       ∧ ∀ z, z ∈ ids → KInt z ∈ processed)
    as (processed & Hids & Hall).
  { clear -Hc. induction Hc as [|item z c ids Hitem _ (s & Hs & Hall)].
    - exists ∅. split; [done|]. by intros ? ?%elem_of_nil.
    - exists ({[ KInt z ]} ∪ s). split.
      + cbn [ids_of_metadata]. by rewrite Hitem, Hs.
      + intros z' [->|Hin]%elem_of_cons; [set_solver|].
        apply elem_of_union_r. by apply Hall. }
  exists sorted, processed. split_and!; try done.
  intros Hread. rewrite main_unfold. cbv zeta.
  rewrite (__init___content env c processed Hmk Hids).
  cbn [res final outcome].
  rewrite process_artworks_unfold. unfold object_ids_of. rewrite Hread.
  cbv zeta.
  rewrite (for_enumerate_all_processed env download_images save_frequency
             sorted 1%nat).
  - cbn [res final events outcome app]. by destruct (_save_metadata env 0%nat _).
  - intros z Hz. cbn [processed_ids]. apply Hall. by rewrite <- Hp.
Qed.

Lemma extracted_ids_are_all_processed_witness :
  ∃ sorted processed,
    extract_objectids (λ _, Raise TypeError) (Content [raw_record 7; raw_record 3]) None
    = Ok (VInt <$> sorted)
    ∧ ids_of_metadata [raw_record 7; raw_record 3] = Ok processed
    ∧ (read_input (sample_env (Ok (DocArray [3; 7])) (Ok None) None)
       = Ok (DocArray sorted) →
       main (sample_env (Ok (DocArray [3; 7])) (Ok None) None) true 10
         (boot (Content [raw_record 7; raw_record 3]))
       = _save_metadata (sample_env (Ok (DocArray [3; 7])) (Ok None) None) 0%nat
           {| metadata := [raw_record 7; raw_record 3]; processed_ids := processed;
              output_file := Content [raw_record 7; raw_record 3] |}).
Proof.
  apply (extracted_ids_are_all_processed (λ _, Raise TypeError)
           (sample_env (Ok (DocArray [3; 7])) (Ok None) None) true 10
           [raw_record 7; raw_record 3] [7; 3]).
  - repeat constructor.
  - reflexivity.
Defined.

(** ** [split_json.py] *)

(** [f"{v}"] for [None], a boolean, an integer or a string. *)
Definition format_scalar (v : value) : option string :=
  match v with
  | VNone => Some "None"
  | VBool true => Some "True"
  | VBool false => Some "False"
  | VInt z => Some (pretty z)
  | VStr s => Some s
  | VList _ | VDict _ => None
  end.

(** A file of the [metadata] directory: the artwork dumped into it, or what
    an interrupted dump left. *)
Inductive json_file : Type :=
| FileHolds (artwork : gmap string value)
| FileTruncated.

Record SplitState : Type := {
  files : gmap string json_file;   (* the files of the metadata directory *)
  success_count : nat;
  error_count : nat
}.

Section SplitJson.

(** [str()] of a list or of a dictionary is left open. *)
Context (str_compound : value → string).
(** Artwork number [i] of the loop: the outcome of opening the file of that
    name for writing and dumping the artwork into it. *)
Context (write_file : nat → string → save_outcome).

(** [f"metadata/{object_id}.json"] *)
Definition artwork_filename (object_id : value) : string :=
  "metadata/" +:+ default (str_compound object_id) (format_scalar object_id)
  +:+ ".json".

(** The body of the [try]. *)
Definition write_artwork (i : nat) (artwork : gmap string value) (s : SplitState)
  : result unit * SplitState :=
  match artwork !! "objectID" with
  | None => (Raise KeyError, s)
  | Some object_id =>
    let filename := artwork_filename object_id in
    match write_file i filename with
    | SaveOpenFails e => (Raise e, s)
    | SaveDumpFails e =>
      (Raise e,
       {| files := <[filename := FileTruncated]> (files s);
          success_count := success_count s;
          error_count := error_count s |})
    | SaveOk =>
      (Ok tt,
       {| files := <[filename := FileHolds artwork]> (files s);
          success_count := S (success_count s);
          error_count := error_count s |})
    end
  end.

(** [try: ... except Exception as e: error_count += 1] *)
Definition split_one (i : nat) (artwork : gmap string value) (s : SplitState)
  : result unit * SplitState :=
  match write_artwork i artwork s with
  | (Ok _, s') => (Ok tt, s')
  | (Raise e, s') =>
    if is_Exception e
    then (Ok tt,
          {| files := files s'; success_count := success_count s';
             error_count := S (error_count s') |})
    else (Raise e, s')
  end.

(** [for artwork in artworks: ...], counting the artworks from [i]. *)
Fixpoint split_loop (i : nat) (artworks : list (gmap string value)) (s : SplitState)
  : result unit * SplitState :=
  match artworks with
  | [] => (Ok tt, s)
  | artwork :: rest =>
    match split_one i artwork s with
    | (Ok _, s') => split_loop (S i) rest s'
    | (Raise e, s') => (Raise e, s')
    end
  end.

(** The script, started on a [metadata] directory that holds [dir] (empty
    when [os.makedirs] creates it). *)
Definition split_json (metadata_json : file_state) (makedirs : option exn)
    (dir : gmap string json_file) : result unit * SplitState :=
  let start := {| files := dir; success_count := 0; error_count := 0 |} in
  match load_json_file metadata_json with
  | Raise e => (Raise e, start)
  | Ok artworks =>
    match makedirs with
    | Some e => (Raise e, start)
    | None => split_loop 0 artworks start
    end
  end.

End SplitJson.

(** Every exception a write raises is an [Exception] (and not, say, a
    [KeyboardInterrupt]). *)
Definition writes_raise_exceptions (write_file : nat → string → save_outcome) : Prop :=
  ∀ i filename e,
    write_file i filename = SaveOpenFails e ∨ write_file i filename = SaveDumpFails e →
    is_Exception e = true.

Section SplitJsonLemmas.

Context (str_compound : value → string).
Context (write_file : nat → string → save_outcome).

Lemma split_one_counts i artwork s :
  writes_raise_exceptions write_file →
  let o := split_one str_compound write_file i artwork s in
  o.1 = Ok tt
  ∧ (success_count o.2 + error_count o.2 = S (success_count s + error_count s))%nat.
Proof.
  intros Hexn. cbv zeta. unfold split_one, write_artwork.
  destruct (artwork !! "objectID") as [object_id|]; [|cbn; split; [done|lia]].
  destruct (write_file i _) as [|e|e] eqn:Hw; cbn [fst snd].
  - cbn. split; [done|lia].
  - rewrite (Hexn i _ e (or_introl Hw)). cbn. split; [done|lia].
  - rewrite (Hexn i _ e (or_intror Hw)). cbn. split; [done|lia].
Qed.

Lemma split_loop_counts artworks : ∀ i s,
  writes_raise_exceptions write_file →
  let o := split_loop str_compound write_file i artworks s in
  o.1 = Ok tt
  ∧ (success_count o.2 + error_count o.2
     = success_count s + error_count s + length artworks)%nat.
Proof.
  induction artworks as [|artwork rest IH]; intros i s Hexn; cbv zeta.
  - cbn. split; [done|lia].
  - cbn [split_loop length].
    destruct (split_one_counts i artwork s Hexn) as [Hok Hsum].
    destruct (split_one str_compound write_file i artwork s) as [r s'].
    cbn [fst snd] in *. subst r.
    destruct (IH (S i) s' Hexn) as [Hok' Hsum']. split; [done|lia].
Qed.

End SplitJsonLemmas.



(** The files after the artworks [c], whose IDs are the integers [ids], were
    all written, one after the other. *)
Fixpoint write_all (str_compound : value → string)
    (c : list (gmap string value)) (ids : list Z) (fs : gmap string json_file)
  : gmap string json_file :=
  match c, ids with
  | artwork :: c', z :: ids' =>
    write_all str_compound c' ids'
      (<[artwork_filename str_compound (VInt z) := FileHolds artwork]> fs)
  | _, _ => fs
  end.

Lemma artwork_filename_inj str_compound z1 z2 :
  artwork_filename str_compound (VInt z1) = artwork_filename str_compound (VInt z2) →
  z1 = z2.
Proof.
  unfold artwork_filename. cbn [format_scalar default].
  intros Heq%(inj (String.append "metadata/")).
  apply (inj (pretty : Z → string)).
  by eapply append_inj_same_length; [|exact Heq].
Qed.

Section WriteAll.

Context (str_compound : value → string).

Lemma write_all_other c : ∀ ids fs name,
  (∀ z, z ∈ ids → name ≠ artwork_filename str_compound (VInt z)) →
  write_all str_compound c ids fs !! name = fs !! name.
Proof.
  induction c as [|artwork c IH]; intros [|z ids] fs name Hname; try done.
  cbn [write_all]. rewrite IH.
  - apply lookup_insert_ne. intros Heq. by apply (Hname z); [constructor|].
  - intros z' Hz'. apply Hname. by constructor.
Qed.

Lemma write_all_last c : ∀ ids fs i artwork z,
  c !! i = Some artwork →
  ids !! i = Some z →
  (∀ j, (i < j)%nat → ids !! j ≠ Some z) →
  write_all str_compound c ids fs !! artwork_filename str_compound (VInt z)
  = Some (FileHolds artwork).
Proof.
  induction c as [|a c IH]; intros [|y ids] fs i artwork z Hc Hi Hlast; try done.
  destruct i as [|i]; cbn [write_all].
  - injection Hc as ->. injection Hi as ->.
    rewrite write_all_other; [apply lookup_insert_eq|].
    intros z' [j Hj]%list_elem_of_lookup_1 Heq%artwork_filename_inj. subst z'.
    by apply (Hlast (S j)); [lia|].
  - apply (IH ids _ i); try done.
    intros j Hj. apply (Hlast (S j)). lia.
Qed.

Lemma write_all_dom c : ∀ ids fs,
  length c = length ids →
  dom (write_all str_compound c ids fs)
  = list_to_set ((λ z, artwork_filename str_compound (VInt z)) <$> ids) ∪ dom fs.
Proof.
  induction c as [|a c IH]; intros [|y ids] fs Hlen; try done.
  - cbn. set_solver.
  - cbn [write_all]. rewrite IH by (cbn in Hlen; lia).
    rewrite dom_insert_L, fmap_cons. cbn [list_to_set]. set_solver.
Qed.

Lemma split_loop_integers write_file c ids :
  has_integer_ids c ids →
  (∀ i filename, write_file i filename = SaveOk) →
  ∀ i s,
    split_loop str_compound write_file i c s
    = (Ok tt,
       {| files := write_all str_compound c ids (files s);
          success_count := success_count s + length c;
          error_count := error_count s |}).
Proof.
  intros Hc Hw. induction Hc as [|artwork z c ids Hz _ IH]; intros i s.
  - cbn. destruct s. cbn. by rewrite Nat.add_0_r.
  - cbn [split_loop write_all length]. unfold split_one, write_artwork.
    rewrite Hz, Hw. rewrite IH. cbn [files success_count error_count].
    do 2 f_equal. lia.
Qed.

End WriteAll.

(** X17: on a collection whose object IDs are integers and with writes that
    succeed, every artwork counts as a success, but an ID stored more than
    once gets one file only: the file named after an ID holds the last
    artwork that has it. The directory gains exactly the files named after
    the IDs, and the other files in it are left alone. *)
Theorem split_json_last_artwork_wins (str_compound : value → string)
    (write_file : nat → string → save_outcome)
    (c : list (gmap string value)) (ids : list Z) (dir : gmap string json_file) :
  let o := split_json str_compound write_file (Content c) None dir in
  let filename z := "metadata/" +:+ pretty z +:+ ".json" in
  has_integer_ids c ids →
  (∀ i name, write_file i name = SaveOk) →
  o.1 = Ok tt
  ∧ success_count o.2 = length c
  ∧ error_count o.2 = 0%nat
  ∧ (∀ i artwork z,
       c !! i = Some artwork → ids !! i = Some z →
       (∀ j, (i < j)%nat → ids !! j ≠ Some z) →
       files o.2 !! filename z = Some (FileHolds artwork))
  ∧ dom (files o.2) = list_to_set (filename <$> ids) ∪ dom dir
  ∧ (∀ name, (∀ z, z ∈ ids → name ≠ filename z) → files o.2 !! name = dir !! name).
Proof.
  intros o filename Hc Hw. subst o. unfold split_json. cbn [load_json_file].
  rewrite (split_loop_integers str_compound write_file c ids Hc Hw).
  cbn [fst snd files success_count error_count].
  split_and!; try done.
  - intros i artwork z Hi Hz Hlast.
    by apply (write_all_last str_compound c ids dir i artwork z).
  - apply write_all_dom. by eapply Forall2_length.
  - intros name Hname. by apply write_all_other.
Qed.

Lemma split_json_last_artwork_wins_witness :
  files (split_json (λ _, "") (λ _ _, SaveOk)
           (Content [raw_record 7; <["title" := VStr "Second"]> (raw_record 7)])
           None ∅).2
  !! ("metadata/" +:+ pretty 7 +:+ ".json")
  = Some (FileHolds (<["title" := VStr "Second"]> (raw_record 7))).
Proof.
  apply (split_json_last_artwork_wins (λ _, "") (λ _ _, SaveOk)
           [raw_record 7; <["title" := VStr "Second"]> (raw_record 7)] [7; 7] ∅)
    with (i := 1%nat).
  - repeat constructor.
  - done.
  - done.
  - done.
  - intros [|[|j]] Hj; try lia; done.
Defined.
